(** * The authenticated-request engine of gophercloud (provider_client.go)

    A shallow embedding of [ProviderClient]: the token store, the request
    executor [doRequest] with its reauthentication / backoff / retry
    branches, and the reauthentication coordinator [Reauthenticate] as an
    interleaving of goroutines. *)

From Stdlib Require Import ZArith NArith Ascii String List Bool Lia.
From stdpp Require Import base option list strings functions gmap fin_maps.

Import ListNotations.
Local Open Scope string_scope.

(** ** Constants (provider_client.go, lines 15-18 and 346) *)

Definition DefaultUserAgent : string := "vnpaycloud-console-gophercloud/v2.0.0".
Definition DefaultMaxBackoffRetries : N := 60%N.
Definition applicationJSON : string := "application/json".

(** Go's [uint]: 64 bits on the supported platforms; [+ 1] wraps around. *)
Definition uint_modulus : N := (2 ^ 64)%N.
Definition uint_succ (n : N) : N := ((n + 1) mod uint_modulus)%N.

(** ** HTTP headers

    [http.Header] is a [map[string][]string].  [Set], [Del] and [Get]
    canonicalise the key first; the canonicalisation is net/textproto's and
    is kept abstract in the executor (see [Platform]). *)

Abbreviation Header := (gmap string (list string)).

Definition Header_Set (canon : string -> string) (k v : string) (h : Header) : Header :=
  <[canon k := [v]]> h.

Definition Header_Del (canon : string -> string) (k : string) (h : Header) : Header :=
  delete (canon k) h.

Definition Header_Get (canon : string -> string) (k : string) (h : Header) : string :=
  match h !! canon k with
  | Some (v :: _) => v
  | _ => ""
  end.

(** ** Errors

    [ErrUnexpectedResponseCode] carries the diagnostics of a response whose
    status was not accepted (lines 452-459). *)

Record ErrUnexpectedResponseCode := {
  URL : string;
  Method : string;
  Expected : list Z;
  Actual : Z;
  Body : string;
  ResponseHeader : Header
}.

(** The error values that flow through the executor.  [errorString] is
    [errors.New]; [ForeignError] stands for any error produced outside this
    file (transport, hooks, seekers, JSON codec), named by a label.  The two
    reauthentication wrappers are declared in errors.go; the constructors
    list the fields that doRequest assigns (lines 466-468 and 483-488), every
    other field of the freshly allocated struct keeps its zero value. *)
Inductive error :=
| errorString (msg : string)
| ForeignError (label : string)
| UnexpectedResponseCode (e : ErrUnexpectedResponseCode)
| ErrUnableToReauthenticate (ErrOriginal : error) (ErrReauth : error)
| ErrErrorAfterReauthentication (ErrOriginal : error).

(** The causal chain of an error: the error itself and every error stored
    in one of its fields, transitively. *)
Fixpoint causes (e : error) : list error :=
  e :: match e with
       | ErrUnableToReauthenticate o r => causes o ++ causes r
       | ErrErrorAfterReauthentication o => causes o
       | _ => []
       end.

(** ** Token store (lines 171-228)

    [AuthResult] is an interface; the executor only uses its
    [ExtractTokenID() (string, error)] method. *)

Record AuthResult := {
  ExtractTokenID : string * option error
}.

Record TokenStore := {
  TokenID : string;
  authResult : option AuthResult
}.

(** [Token] (lines 187-193).  The read lock does not change the value read. *)
Definition Token (c : TokenStore) : string := TokenID c.

(** [GetAuthResult] (lines 177-183). *)
Definition GetAuthResult (c : TokenStore) : option AuthResult := authResult c.

(** [SetToken] (lines 199-206). *)
Definition SetToken (t : string) (c : TokenStore) : TokenStore :=
  {| TokenID := t; authResult := None |}.

(** [SetTokenAndAuthResult] (lines 211-228): returns the updated store and
    the returned error. *)
Definition SetTokenAndAuthResult (r : option AuthResult) (c : TokenStore)
  : TokenStore * option error :=
  match r with
  | Some a =>
      match ExtractTokenID a with
      | (_, Some err) => (c, Some err)
      | (tokenID, None) => ({| TokenID := tokenID; authResult := r |}, None)
      end
  | None => ({| TokenID := ""; authResult := r |}, None)
  end.

(** [CopyTokenFrom] (lines 232-243). *)
Definition CopyTokenFrom (other : TokenStore) (c : TokenStore) : TokenStore :=
  {| TokenID := TokenID other; authResult := authResult other |}.

(** The cached result, when there is one, is the one the token came from. *)
Definition consistent (c : TokenStore) : Prop :=
  forall a, authResult c = Some a -> ExtractTokenID a = (TokenID c, None).

(** ** Reauthentication futures (lines 117-140)

    [done] tells whether the channel has been closed; [err] is the result
    stored before closing it. *)

Record reauthFuture := {
  done : bool;
  err : option error
}.

Definition newReauthFuture : reauthFuture := {| done := false; err := None |}.

(** [Set] (lines 132-135).  Closing a closed channel panics: [None]. *)
Definition reauthFuture_Set (e : option error) (f : reauthFuture) : option reauthFuture :=
  if done f then None else Some {| done := true; err := e |}.

(** [Get] (lines 137-140): the receive on [done] yields only once the
    channel is closed; [None] while the caller is kept waiting. *)
Definition reauthFuture_Get (f : reauthFuture) : option (option error) :=
  if done f then Some (err f) else None.

(** ** The request executor (lines 309-583) *)

Module Executor.

(** What lies outside provider_client.go.  [Env] is the state of the outside
    world (server, network, clock, private state of the hooks); [Any] is the
    type of the values given as [JSONBody]. *)
Class Platform := {
  Env : Type;
  Any : Type;
  (** net/textproto.CanonicalMIMEHeaderKey *)
  CanonicalMIMEHeaderKey : string -> string;
  (** encoding/json.Marshal *)
  json_Marshal : Any -> error + string;
  (** the argument check of http.NewRequestWithContext (method, url) *)
  NewRequest_error : string -> string -> option error;
}.

(** An [io.Reader] given as [RawBody]: its bytes, and what a type assertion
    to [io.Seeker] and a call of [Seek(0, 0)] give. *)
Inductive Seeking :=
| NotSeeker
| IsSeeker (seek_error : option error).

Record Reader := {
  content : string;
  seeking : Seeking
}.

(** The part of [http.Request] that the executor fills in.  [ReqBody] is
    what the body stream holds, from its current offset, when the request is
    handed to the transport. *)
Record http_Request := {
  ReqMethod : string;
  ReqURL : string;
  ReqHeader : Header;
  ReqBody : string
}.

(** The part of [http.Response] that the executor inspects.  [ReadError] is
    the error met when reading the body to its end, [DecodeError] the error
    of decoding it as JSON into the caller's target. *)
Record http_Response := {
  StatusCode : Z;
  RespBody : string;
  RespHeader : Header;
  ReadError : option error;
  DecodeError : option error
}.

(** [RequestOpts] (lines 310-333).  A nil slice and an empty slice differ for
    [OkCodes] (line 436); a map is listed in the order [range] visits it. *)
Record RequestOpts `{Platform} := {
  JSONBody : option Any;
  RawBody : option Reader;
  JSONResponse : bool;
  OkCodes : option (list Z);
  MoreHeaders : list (string * string);
  OmitHeaders : list string;
  KeepResponseBody : bool
}.

(** What a user-supplied hook can change: the outside world and the token
    store of the client (hooks such as [ReauthFunc] call
    [SetTokenAndAuthResult]). *)
Record World `{Platform} := {
  env : Env;
  store : TokenStore
}.

Definition Hook `{Platform} : Type := World -> World * option error.

(** [ProviderClient] (lines 54-109): the fields that stay fixed during one
    call.  [TokenID] and [authResult] live in [store]; [reauthmut] tells
    whether [UseTokenLock] installed the locks. *)
Record ProviderClient `{Platform} := {
  UserAgent : list string;
  ReauthFunc : option Hook;
  Throwaway : bool;
  RetryBackoffFunc : option (ErrUnexpectedResponseCode -> option error -> N -> Hook);
  MaxBackoffRetries : N;
  RetryFunc : option (string -> string -> RequestOpts -> error -> N -> Hook);
  (** the transport, [client.HTTPClient.Do]: new world, number of body
      bytes it consumed, and [(resp, err)] *)
  HTTPClient_Do : http_Request -> Env -> Env * nat * (error + http_Response);
  reauthmut : bool
}.

(** What the calls of one goroutine leave behind, in order. *)
Inductive Event `{Platform} :=
| EvDo (req : http_Request)
| EvReauthenticate (previousToken : string)
| EvReauthFunc
| EvBackoff (respErr : ErrUnexpectedResponseCode) (failCount : N)
| EvRetry (e : error) (failCount : N)
| EvSeek.

(** [requestState] (lines 336-344). *)
Record requestState := {
  hasReauthenticated : bool;
  retries : N
}.

(** The memory one call of [Request] works on. *)
Record Mem `{Platform} := {
  world : World;
  ongoing : option reauthFuture;  (* client.reauthmut.ongoing *)
  offset : nat;                    (* read offset of options.RawBody *)
  state : requestState;
  log : list Event                 (* newest first *)
}.

(** A call that may wait for ever on a channel. *)
Inductive Blocking `{Platform} (A : Type) :=
| Got (a : A) (m : Mem)
| Blocks (m : Mem).
Arguments Got {_ A} a m.
Arguments Blocks {_ A} m.

Section Definitions.
Context `{Platform}.

Definition set_world (w : World) (m : Mem) : Mem :=
  {| world := w; ongoing := ongoing m; offset := offset m; state := state m; log := log m |}.
Definition set_ongoing (o : option reauthFuture) (m : Mem) : Mem :=
  {| world := world m; ongoing := o; offset := offset m; state := state m; log := log m |}.
Definition set_offset (n : nat) (m : Mem) : Mem :=
  {| world := world m; ongoing := ongoing m; offset := n; state := state m; log := log m |}.
Definition set_state (s : requestState) (m : Mem) : Mem :=
  {| world := world m; ongoing := ongoing m; offset := offset m; state := s; log := log m |}.
Definition emit (e : Event) (m : Mem) : Mem :=
  {| world := world m; ongoing := ongoing m; offset := offset m; state := state m;
     log := e :: log m |}.

(** Running a hook: it sees and changes the world only. *)
Definition call (f : Hook) (m : Mem) : option error * Mem :=
  let '(w, e) := f (world m) in (e, set_world w m).

(** [UserAgent.Join] (lines 43-46). *)
Definition Join (prepend : list string) : string :=
  String.concat " " (prepend ++ [DefaultUserAgent]).

(** [AuthenticatedHeaders] (lines 144-162), for the goroutine on its own:
    nobody else closes the channel it may wait on. *)
Definition AuthenticatedHeaders (client : ProviderClient) (m : Mem)
  : Blocking (list (string * string)) :=
  if Throwaway client then Got [] m
  else
    let token_headers :=
      let t := Token (store (world m)) in
      if String.eqb t "" then [] else [("X-Auth-Token", t)] in
    if reauthmut client then
      match ongoing m with
      | Some f =>
          match reauthFuture_Get f with
          | Some _ => Got token_headers m
          | None => Blocks m
          end
      | None => Got token_headers m
      end
    else Got token_headers m.

(** [Reauthenticate] (lines 268-307), for the goroutine on its own. *)
Definition Reauthenticate (client : ProviderClient) (previousToken : string) (m : Mem)
  : Blocking (option error) :=
  let m := emit (EvReauthenticate previousToken) m in
  match ReauthFunc client with
  | None => Got None m
  | Some f =>
      if negb (reauthmut client) then
        let '(e, m) := call f (emit EvReauthFunc m) in Got e m
      else
        match ongoing m with
        | Some running =>
            match reauthFuture_Get running with
            | Some e => Got e m
            | None => Blocks m
            end
        | None =>
            let m := set_ongoing (Some newReauthFuture) m in
            let '(e, m) :=
              if String.eqb previousToken "" || String.eqb (TokenID (store (world m))) previousToken
              then call f (emit EvReauthFunc m)
              else (None, m) in
            Got e (set_ongoing None m)
        end
  end.

(** [defaultOkCodes] (lines 568-583). *)
Definition defaultOkCodes (method : string) : list Z :=
  if String.eqb method "GET" || String.eqb method "HEAD" then [200%Z]
  else if String.eqb method "POST" then [201%Z; 202%Z]
  else if String.eqb method "PUT" then [201%Z; 202%Z]
  else if String.eqb method "PATCH" then [200%Z; 202%Z; 204%Z]
  else if String.eqb method "DELETE" then [202%Z; 204%Z]
  else [].


(** *** Building the request (lines 357-416) *)

Inductive BodySource :=
| NoBody
| Rendered (bytes : string)   (* bytes.NewReader(rendered): a fresh reader per attempt *)
| Stream (r : Reader).        (* options.RawBody itself *)

Fixpoint drop_bytes (n : nat) (s : string) : string :=
  match n, s with
  | O, _ => s
  | S n, String _ s => drop_bytes n s
  | S _, EmptyString => EmptyString
  end.

(** Lines 362-388: the body and the content type, or the error returned
    before anything is sent. *)
Definition prepare (method url : string) (options : RequestOpts)
  : error + (BodySource * option string) :=
  let rendered :=
    match JSONBody options with
    | Some v =>
        match RawBody options with
        | Some _ =>
            inl (errorString
                   "please provide only one of JSONBody or RawBody to gophercloud.Request()")
        | None =>
            match json_Marshal v with
            | inl e => inl e
            | inr bytes => inr (Rendered bytes, Some applicationJSON)
            end
        end
    | None => inr (NoBody, None)
    end in
  match rendered with
  | inl e => inl e
  | inr (body, contentType) =>
      if KeepResponseBody options && JSONResponse options
      then inl (errorString "cannot use KeepResponseBody when JSONResponse is not nil")
      else
        let body := match RawBody options with Some r => Stream r | None => body end in
        match NewRequest_error method url with
        | Some e => inl e
        | None => inr (body, contentType)
        end
  end.

Definition Set_ (k v : string) (h : Header) : Header := Header_Set CanonicalMIMEHeaderKey k v h.
Definition Del_ (k : string) (h : Header) : Header := Header_Del CanonicalMIMEHeaderKey k h.
Definition Get_ (k : string) (h : Header) : string := Header_Get CanonicalMIMEHeaderKey k h.

(** Lines 393-399. *)
Definition default_headers (client : ProviderClient) (contentType : option string) : Header :=
  let h : Header := ∅ in
  let h := match contentType with Some ct => Set_ "Content-Type" ct h | None => h end in
  let h := Set_ "Accept" applicationJSON h in
  Set_ "User-Agent" (Join (UserAgent client)) h.

(** Lines 401-405. *)
Definition apply_MoreHeaders (options : RequestOpts) (h : Header) : Header :=
  foldl (fun h kv => Set_ (fst kv) (snd kv) h) h (MoreHeaders options).

(** Lines 407-409. *)
Definition apply_OmitHeaders (options : RequestOpts) (h : Header) : Header :=
  foldl (fun h k => Del_ k h) h (OmitHeaders options).

(** Lines 412-414. *)
Definition apply_auth (auth : list (string * string)) (h : Header) : Header :=
  foldl (fun h kv => Set_ (fst kv) (snd kv) h) h auth.

(** The header of the outbound request, lines 393-414 in order. *)
Definition request_header (client : ProviderClient) (options : RequestOpts)
  (contentType : option string) (auth : list (string * string)) : Header :=
  apply_auth auth
    (apply_OmitHeaders options
       (apply_MoreHeaders options (default_headers client contentType))).

(** *** Sending (line 419) *)

Definition outbound (method url : string) (h : Header) (body : BodySource) (m : Mem) : http_Request :=
  {| ReqMethod := method; ReqURL := url; ReqHeader := h;
     ReqBody := match body with
                | NoBody => ""
                | Rendered bytes => bytes
                | Stream r => drop_bytes (offset m) (content r)
                end |}.

Definition transmit (client : ProviderClient) (req : http_Request) (body : BodySource) (m : Mem)
  : (error + http_Response) * Mem :=
  let '(env', consumed, r) := HTTPClient_Do client req (env (world m)) in
  let m := set_world {| env := env'; store := store (world m) |} (emit (EvDo req) m) in
  let m := match body with
           | Stream r => set_offset (Nat.min (String.length (content r)) (offset m + consumed)) m
           | _ => m
           end in
  (r, m).

(** *** Retrying *)

(** [state.retries = state.retries + 1] *)
Definition bump (m : Mem) : Mem :=
  set_state {| hasReauthenticated := hasReauthenticated (state m);
               retries := uint_succ (retries (state m)) |} m.

Definition Result : Type := option http_Response * option error.

(** How one pass through the body of [doRequest] ends. *)
Inductive Next :=
| Return (r : Result) (m : Mem)
| Again (m : Mem)               (* return client.doRequest(...) *)
| AgainAfterReauth (m : Mem)    (* the call of line 479 *)
| Wait (m : Mem).               (* waiting on reauthFuture.done *)

(** The three places that consult [client.RetryFunc] (lines 421-431,
    518-529, 542-552).  They differ in the response handed back with the
    error: [aborted] when the hook refuses, [unhooked] when there is none. *)
Definition consult_RetryFunc (client : ProviderClient) (method url : string)
  (options : RequestOpts) (e : error) (aborted unhooked : option http_Response) (m : Mem) : Next :=
  match RetryFunc client with
  | Some f =>
      let m := bump m in
      let n := retries (state m) in
      let '(e', m) := call (f method url options e n) (emit (EvRetry e n) m) in
      match e' with
      | Some e' => Return (aborted, Some e') m
      | None => Again m
      end
  | None => Return (unhooked, Some e) m
  end.

(** Lines 471-477: rewinding [RawBody] after a reauthentication. *)
Definition rewind (options : RequestOpts) (m : Mem) : option error * Mem :=
  match RawBody options with
  | Some r =>
      match seeking r with
      | IsSeeker (Some e) => (Some e, emit EvSeek m)
      | IsSeeker None => (None, set_offset 0 (emit EvSeek m))
      | NotSeeker => (None, m)
      end
  | None => (None, m)
  end.

(** Lines 495-498. *)
Definition maxTries (client : ProviderClient) : N :=
  if (MaxBackoffRetries client =? 0)%N then DefaultMaxBackoffRetries
  else MaxBackoffRetries client.

(** Lines 449-530: a response whose status is not accepted. *)
Definition unacceptable (client : ProviderClient) (method url : string) (options : RequestOpts)
  (okc : list Z) (prereqtok : string) (resp : http_Response) (m : Mem) : Next :=
  let respErr := {| URL := url; Method := method; Expected := okc;
                    Actual := StatusCode resp; Body := RespBody resp;
                    ResponseHeader := RespHeader resp |} in
  let otherwise m :=
    consult_RetryFunc client method url options (UnexpectedResponseCode respErr)
      (Some resp) (Some resp) m in
  if (StatusCode resp =? 401)%Z then
    if bool_decide (ReauthFunc client <> None) && negb (hasReauthenticated (state m)) then
      match Reauthenticate client prereqtok m with
      | Blocks m => Wait m
      | Got (Some e) m =>
          Return (None, Some (ErrUnableToReauthenticate (UnexpectedResponseCode respErr) e)) m
      | Got None m =>
          match rewind options m with
          | (Some e, m) => Return (None, Some e) m
          | (None, m) =>
              AgainAfterReauth
                (set_state {| hasReauthenticated := true; retries := retries (state m) |} m)
          end
      end
    else otherwise m
  else if (StatusCode resp =? 429)%Z || (StatusCode resp =? 498)%Z then
    match RetryBackoffFunc client with
    | Some f =>
        if (retries (state m) <? maxTries client)%N then
          let m := bump m in
          let n := retries (state m) in
          let '(e, m) := call (f respErr None n) (emit (EvBackoff respErr n) m) in
          match e with
          | Some e => Return (Some resp, Some e) m
          | None => Again m
          end
        else otherwise m
    | None => otherwise m
    end
  else otherwise m.

(** Lines 532-565: a response whose status is accepted. *)
Definition acceptable (client : ProviderClient) (method url : string) (options : RequestOpts)
  (resp : http_Response) (m : Mem) : Next :=
  if JSONResponse options then
    if (StatusCode resp =? 204)%Z then Return (Some resp, ReadError resp) m
    else
      match DecodeError resp with
      | Some e => consult_RetryFunc client method url options e (Some resp) None m
      | None => Return (Some resp, None) m
      end
  else if negb (KeepResponseBody options) then
    match ReadError resp with
    | Some e => Return (None, Some e) m
    | None => Return (Some resp, None) m
    end
  else Return (Some resp, None) m.

(** Lines 356-419: build the request, attach the headers and hand it to the
    transport.  [Exchanged] carries the token the request was sent with. *)
Inductive Exchange :=
| Refused (e : error)
| Stalled (m : Mem)
| Exchanged (prereqtok : string) (r : error + http_Response) (m : Mem).

Definition exchange (client : ProviderClient) (method url : string) (options : RequestOpts)
  (m : Mem) : Exchange :=
  match prepare method url options with
  | inl e => Refused e
  | inr (body, contentType) =>
      match AuthenticatedHeaders client m with
      | Blocks m => Stalled m
      | Got auth m =>
          let h := request_header client options contentType auth in
          let prereqtok := Get_ "X-Auth-Token" h in
          let '(r, m) := transmit client (outbound method url h body m) body m in
          Exchanged prereqtok r m
      end
  end.

(** Lines 435-438. *)
Definition accepted_codes (method : string) (options : RequestOpts) : list Z :=
  match OkCodes options with
  | Some codes => codes
  | None => defaultOkCodes method
  end.

(** Lines 441-447. *)
Definition accepts (okc : list Z) (resp : http_Response) : bool :=
  existsb (Z.eqb (StatusCode resp)) okc.

(** One pass through the body of [doRequest] (lines 356-566). *)
Definition attempt (client : ProviderClient) (method url : string) (options : RequestOpts)
  (m : Mem) : Next :=
  match exchange client method url options m with
  | Refused e => Return (None, Some e) m
  | Stalled m => Wait m
  | Exchanged _ (inl e) m => consult_RetryFunc client method url options e None None m
  | Exchanged prereqtok (inr resp) m =>
      let okc := accepted_codes method options in
      if accepts okc resp
      then acceptable client method url options resp m
      else unacceptable client method url options okc prereqtok resp m
  end.

(** Lines 481-490: both arms of the type switch build the same wrapper. *)
Definition after_reauthentication (e : error) : error :=
  match e with
  | UnexpectedResponseCode _ => ErrErrorAfterReauthentication e
  | _ => ErrErrorAfterReauthentication e
  end.

(** How a call of [doRequest] ends.  The recursion of the source is not
    bounded (a hook may ask for a retry for ever), so the embedding counts
    the passes it may still make. *)
Inductive Outcome :=
| Returned (r : Result) (m : Mem)
| Blocked (m : Mem)
| OutOfFuel (m : Mem).

Fixpoint doRequest (fuel : nat) (client : ProviderClient) (method url : string)
  (options : RequestOpts) (m : Mem) : Outcome :=
  match fuel with
  | O => OutOfFuel m
  | S fuel =>
      match attempt client method url options m with
      | Return r m => Returned r m
      | Wait m => Blocked m
      | Again m => doRequest fuel client method url options m
      | AgainAfterReauth m =>
          match doRequest fuel client method url options m with
          | Returned (_, Some e) m => Returned (None, Some (after_reauthentication e)) m
          | Returned (resp, None) m => Returned (resp, None) m
          | stopped => stopped
          end
      end
  end.

(** [Request] (lines 350-354): a fresh [requestState]. *)
Definition fresh (m : Mem) : Mem :=
  set_state {| hasReauthenticated := false; retries := 0 |} m.

Definition Request (fuel : nat) (client : ProviderClient) (method url : string)
  (options : RequestOpts) (m : Mem) : Outcome :=
  doRequest fuel client method url options (fresh m).

(** [passes m m']: a call of [doRequest] that starts a pass in memory [m]
    starts a later pass (or this one) in memory [m']. *)
Inductive passes (client : ProviderClient) (method url : string) (options : RequestOpts)
  : Mem -> Mem -> Prop :=
| passes_here m : passes client method url options m m
| passes_Again m m1 m2 :
    attempt client method url options m = Again m1 ->
    passes client method url options m1 m2 ->
    passes client method url options m m2
| passes_AgainAfterReauth m m1 m2 :
    attempt client method url options m = AgainAfterReauth m1 ->
    passes client method url options m1 m2 ->
    passes client method url options m m2.

(** The memory in which a call ended, and counters over its log. *)
Definition final (o : Outcome) : Mem :=
  match o with Returned _ m => m | Blocked m => m | OutOfFuel m => m end.

Definition is_reauthenticate (e : Event) : bool :=
  match e with EvReauthenticate _ => true | _ => false end.
Definition is_backoff (e : Event) : bool :=
  match e with EvBackoff _ _ => true | _ => false end.
Definition is_do (e : Event) : bool :=
  match e with EvDo _ => true | _ => false end.

Definition count (p : Event -> bool) (l : list Event) : nat := length (List.filter p l).

Definition reauths (m : Mem) : nat := count is_reauthenticate (log m).
Definition backoffs (m : Mem) : nat := count is_backoff (log m).

(** How many calls of [Reauthenticate] the flag of [requestState] still
    allows. *)
Definition allowance (m : Mem) : nat := if hasReauthenticated (state m) then 0 else 1.

(** The retry counter accounts for the backoff calls made since the log
    held [base] of them, and has not passed the ceiling [k]. *)
Definition counted (base : nat) (k : N) (m : Mem) : Prop :=
  N.of_nat (backoffs m) = (N.of_nat base + retries (state m))%N
  /\ (retries (state m) <= k)%N.

(** The error built at lines 452-459. *)
Definition respErr_of (method url : string) (options : RequestOpts) (resp : http_Response)
  : ErrUnexpectedResponseCode :=
  {| URL := url; Method := method; Expected := accepted_codes method options;
     Actual := StatusCode resp; Body := RespBody resp; ResponseHeader := RespHeader resp |}.

Definition rate_limited (resp : http_Response) : bool :=
  (StatusCode resp =? 429)%Z || (StatusCode resp =? 498)%Z.

(** [UserAgent.Prepend] (lines 37-39). *)
Definition Prepend (s : list string) (prepend : list string) : list string :=
  (s ++ prepend)%list.

(** The fail counts handed to [RetryBackoffFunc] and [RetryFunc], oldest
    first. *)
Definition failCounts (l : list Event) : list N :=
  rev (omap (fun e => match e with
                      | EvBackoff _ n | EvRetry _ n => Some n
                      | _ => None
                      end) l).

(** The numbers 1, 2, ..., k as a [uint] counts them. *)
Definition uint_upto (k : nat) : list N :=
  map (fun i => (N.of_nat (S i) mod uint_modulus)%N) (seq 0 k).

Definition sends (m : Mem) : nat := count is_do (log m).


(** The value [MoreHeaders] gives to the canonical key [c]: that of the
    last entry whose name has this canonical form. *)
Definition overriding (c : string) (l : list (string * string)) (start : option string)
  : option string :=
  foldl (fun acc kv => if String.eqb (CanonicalMIMEHeaderKey (fst kv)) c
                       then Some (snd kv) else acc) start l.

(** The hooks of this call were handed the counts 1, ..., k so far. *)
Definition numbered (base : list N) (m : Mem) : Prop :=
  exists k, failCounts (log m) = (base ++ uint_upto k)%list
            /\ retries (state m) = (N.of_nat k mod uint_modulus)%N.

(** The requests handed to the transport, oldest first. *)
Definition sent (l : list Event) : list http_Request :=
  rev (omap (fun e => match e with EvDo r => Some r | _ => None end) l).

End Definitions.
End Executor.

(** ** The reauthentication coordinator among goroutines

    [Reauthenticate] (lines 268-307) and [AuthenticatedHeaders]
    (lines 144-162) as run by any number of goroutines sharing one client.
    A step is a stretch of code that runs under [reauthmut], or between two
    such stretches; futures live in a heap indexed by allocation order. *)

Module Coordinator.

Record Config := {
  has_ReauthFunc : bool;   (* client.ReauthFunc != nil *)
  has_reauthmut : bool;    (* client.reauthmut != nil *)
  is_throwaway : bool      (* client.Throwaway *)
}.

(** Where a goroutine stands.  [Returned] remembers the future its result
    came from. *)
Inductive pc :=
| Outside
| Entered (previousToken : string) (future : nat)   (* line 277 done, before line 280 *)
| Owner (previousToken : string) (future : nat)     (* line 285 done with ongoing == nil *)
| Running (future : nat)                            (* inside client.ReauthFunc, line 295 *)
| Finishing (future : nat) (e : option error)       (* before line 301 *)
| Waiting (running : nat)                           (* line 289, in ongoing.Get() *)
| Unguarded                                         (* line 274, inside client.ReauthFunc *)
| Returned (future : option nat) (e : option error)
| HeadersEntered                                    (* before line 150 *)
| HeadersWaiting (running : nat)                    (* line 154, in ongoing.Get() *)
| HeadersReading                                    (* line 157 *)
| HeadersReturned (m : list (string * string)).

(** A goroutine and the context of its call. *)
Record Goroutine := {
  at_ : pc;
  ctx_canceled : bool
}.

Record State := {
  store : TokenStore;
  ongoing : option nat;             (* client.reauthmut.ongoing *)
  futures : list reauthFuture;
  goroutines : nat -> Goroutine;
  invocations : list nat            (* futures under which ReauthFunc was called *)
}.

Inductive Action :=
| CallReauthenticate (t : nat) (previousToken : string)
| Lock (t : nat)                                          (* lines 280-285 *)
| Decide (t : nat)                                        (* lines 293-298 *)
| ReauthFuncReturns (t : nat) (st : TokenStore) (e : option error)
| Publish (t : nat)                                       (* lines 301-306 *)
| Receive (t : nat)                                       (* <-f.done, line 138 *)
| CallAuthenticatedHeaders (t : nat)
| Observe (t : nat)                                       (* lines 150-152 *)
| ReadToken (t : nat)                                     (* lines 157-161 *)
| Cancel (t : nat).                                       (* the context of t is canceled *)

(** The goroutine that takes the step; [Cancel] comes from outside. *)
Definition actor (a : Action) : option nat :=
  match a with
  | CallReauthenticate t _ | Lock t | Decide t | ReauthFuncReturns t _ _ | Publish t
  | Receive t | CallAuthenticatedHeaders t | Observe t | ReadToken t => Some t
  | Cancel _ => None
  end.

Definition move (t : nat) (p : pc) (s : State) : State :=
  {| store := store s; ongoing := ongoing s; futures := futures s;
     goroutines := <[t := {| at_ := p; ctx_canceled := ctx_canceled (goroutines s t) |}]>
                     (goroutines s);
     invocations := invocations s |}.

Definition set_store (st : TokenStore) (s : State) : State :=
  {| store := st; ongoing := ongoing s; futures := futures s;
     goroutines := goroutines s; invocations := invocations s |}.

Definition set_ongoing (o : option nat) (s : State) : State :=
  {| store := store s; ongoing := o; futures := futures s;
     goroutines := goroutines s; invocations := invocations s |}.

Definition set_futures (fs : list reauthFuture) (s : State) : State :=
  {| store := store s; ongoing := ongoing s; futures := fs;
     goroutines := goroutines s; invocations := invocations s |}.

Definition record (future : nat) (s : State) : State :=
  {| store := store s; ongoing := ongoing s; futures := futures s;
     goroutines := goroutines s; invocations := future :: invocations s |}.

Definition cancel (t : nat) (s : State) : State :=
  {| store := store s; ongoing := ongoing s; futures := futures s;
     goroutines := <[t := {| at_ := at_ (goroutines s t); ctx_canceled := true |}]>
                     (goroutines s);
     invocations := invocations s |}.

Definition resting (p : pc) : bool :=
  match p with
  | Outside | Returned _ _ | HeadersReturned _ => true
  | _ => false
  end.

Definition step (cfg : Config) (a : Action) (s : State) : option State :=
  match a with
  | CallReauthenticate t previousToken =>
      if resting (at_ (goroutines s t)) then
        if negb (has_ReauthFunc cfg) then Some (move t (Returned None None) s)
        else if negb (has_reauthmut cfg) then Some (move t Unguarded s)
        else Some (move t (Entered previousToken (length (futures s)))
                     (set_futures (futures s ++ [newReauthFuture]) s))
      else None
  | Lock t =>
      match at_ (goroutines s t) with
      | Entered previousToken future =>
          match ongoing s with
          | None => Some (move t (Owner previousToken future) (set_ongoing (Some future) s))
          | Some running => Some (move t (Waiting running) s)
          end
      | _ => None
      end
  | Decide t =>
      match at_ (goroutines s t) with
      | Owner previousToken future =>
          if String.eqb previousToken "" || String.eqb (TokenID (store s)) previousToken
          then Some (move t (Running future) (record future s))
          else Some (move t (Finishing future None) s)
      | _ => None
      end
  | ReauthFuncReturns t st e =>
      match at_ (goroutines s t) with
      | Running future => Some (move t (Finishing future e) (set_store st s))
      | Unguarded => Some (move t (Returned None e) (set_store st s))
      | _ => None
      end
  | Publish t =>
      match at_ (goroutines s t) with
      | Finishing future e =>
          match ongoing s with
          | Some marked =>
              match futures s !! marked with
              | Some f =>
                  match reauthFuture_Set e f with
                  | Some f' =>
                      Some (move t (Returned (Some future) e)
                              (set_ongoing None (set_futures (<[marked := f']> (futures s)) s)))
                  | None => None
                  end
              | None => None
              end
          | None => None
          end
      | _ => None
      end
  | Receive t =>
      match at_ (goroutines s t) with
      | Waiting running =>
          match futures s !! running with
          | Some f =>
              match reauthFuture_Get f with
              | Some e => Some (move t (Returned (Some running) e) s)
              | None => None
              end
          | None => None
          end
      | HeadersWaiting running =>
          match futures s !! running with
          | Some f =>
              match reauthFuture_Get f with
              | Some _ => Some (move t HeadersReading s)
              | None => None
              end
          | None => None
          end
      | _ => None
      end
  | CallAuthenticatedHeaders t =>
      if resting (at_ (goroutines s t)) then
        if is_throwaway cfg then Some (move t (HeadersReturned []) s)
        else if has_reauthmut cfg then Some (move t HeadersEntered s)
        else Some (move t HeadersReading s)
      else None
  | Observe t =>
      match at_ (goroutines s t) with
      | HeadersEntered =>
          match ongoing s with
          | Some running => Some (move t (HeadersWaiting running) s)
          | None => Some (move t HeadersReading s)
          end
      | _ => None
      end
  | ReadToken t =>
      match at_ (goroutines s t) with
      | HeadersReading =>
          let tok := Token (store s) in
          Some (move t (HeadersReturned (if String.eqb tok "" then [] else [("X-Auth-Token", tok)])) s)
      | _ => None
      end
  | Cancel t => Some (cancel t s)
  end.

Fixpoint run (cfg : Config) (acts : list Action) (s : State) : option State :=
  match acts with
  | [] => Some s
  | a :: acts =>
      match step cfg a s with
      | Some s => run cfg acts s
      | None => None
      end
  end.

Definition init (st : TokenStore) : State :=
  {| store := st; ongoing := None; futures := [];
     goroutines := fun _ => {| at_ := Outside; ctx_canceled := false |};
     invocations := [] |}.

(** A goroutine holds the attempt made under [future]. *)
Definition in_flight (p : pc) (future : nat) : Prop :=
  match p with
  | Owner _ f | Running f | Finishing f _ => f = future
  | _ => False
  end.

(** A goroutine waits on the future [running]. *)
Definition waits_on (p : pc) (running : nat) : Prop :=
  match p with
  | Waiting f | HeadersWaiting f => f = running
  | _ => False
  end.

(** What holds in every state the goroutines can reach. *)
Record Inv (s : State) : Prop := {
  inv_marker : forall t f, in_flight (at_ (goroutines s t)) f -> ongoing s = Some f;
  inv_single : forall t1 t2 f1 f2,
      in_flight (at_ (goroutines s t1)) f1 -> in_flight (at_ (goroutines s t2)) f2 -> t1 = t2;
  inv_open : forall f, ongoing s = Some f ->
      exists fut, futures s !! f = Some fut /\ done fut = false;
  inv_entered : forall t prev f, at_ (goroutines s t) = Entered prev f ->
      futures s !! f = Some newReauthFuture /\ ongoing s <> Some f /\ ~ In f (invocations s);
  inv_private : forall t1 t2 prev1 prev2 f,
      at_ (goroutines s t1) = Entered prev1 f -> at_ (goroutines s t2) = Entered prev2 f ->
      t1 = t2;
  inv_owner : forall t prev f, at_ (goroutines s t) = Owner prev f -> ~ In f (invocations s);
  inv_running : forall t f, at_ (goroutines s t) = Running f -> In f (invocations s);
  inv_once : NoDup (invocations s);
  inv_known : forall f, In f (invocations s) -> f < length (futures s);
  inv_returned : forall t f e, at_ (goroutines s t) = Returned (Some f) e ->
      exists fut, futures s !! f = Some fut /\ done fut = true /\ err fut = e;
  inv_skipped : forall t f e, at_ (goroutines s t) = Finishing f e ->
      ~ In f (invocations s) -> e = None;
  inv_published : forall f fut, futures s !! f = Some fut -> done fut = true ->
      ~ In f (invocations s) -> err fut = None
}.

(** The marker names a goroutine that holds the attempt, and every goroutine
    that waits does so on a closed future or on the marked one. *)
Record Anchored (s : State) : Prop := {
  anchored_marker : forall f, ongoing s = Some f ->
      exists t, in_flight (at_ (goroutines s t)) f;
  anchored_waiter : forall t g, waits_on (at_ (goroutines s t)) g ->
      exists fut, futures s !! g = Some fut /\ (done fut = true \/ ongoing s = Some g)
}.

(** Places that carry no obligation in [Inv]. *)
Definition neutral (p : pc) : Prop :=
  match p with
  | Entered _ _ | Owner _ _ | Running _ | Finishing _ _ | Returned (Some _) _ => False
  | _ => True
  end.

End Coordinator.

(** ** Concrete clients and servers

    A platform whose outside world is the list of answers the transport will
    give, in order; used to run the executor on examples. *)

Module Scenario.
Import Executor.

Definition is_lower (c : ascii) : bool :=
  (97 <=? nat_of_ascii c)%nat && (nat_of_ascii c <=? 122)%nat.
Definition is_upper (c : ascii) : bool :=
  (65 <=? nat_of_ascii c)%nat && (nat_of_ascii c <=? 90)%nat.
Definition is_digit (c : ascii) : bool :=
  (48 <=? nat_of_ascii c)%nat && (nat_of_ascii c <=? 57)%nat.

Definition validHeaderFieldByte (c : ascii) : bool :=
  is_lower c || is_upper c || is_digit c
  || existsb (Ascii.eqb c) (list_ascii_of_string "!#$%&'*+-.^_`|~").

Fixpoint canonical_from (upper : bool) (s : string) : string :=
  match s with
  | EmptyString => EmptyString
  | String c s =>
      let c' := if upper && is_lower c then ascii_of_nat (nat_of_ascii c - 32)
                else if negb upper && is_upper c then ascii_of_nat (nat_of_ascii c + 32)
                else c in
      String c' (canonical_from (Ascii.eqb c' "-") s)
  end.

(** The rule of net/textproto: a key made of token bytes gets an upper-case
    letter at its start and after each hyphen, lower-case letters elsewhere;
    any other key is left alone. *)
Definition canonical_key (s : string) : string :=
  if forallb validHeaderFieldByte (list_ascii_of_string s) then canonical_from true s else s.

Definition scripted : Platform :=
  {| Env := list (error + http_Response);
     Any := string;
     CanonicalMIMEHeaderKey := canonical_key;
     json_Marshal := fun v => inr v;
     NewRequest_error := fun _ _ => None |}.

#[local] Existing Instance scripted.

(** The transport answers from the script and reads the whole body. *)
Definition scripted_Do (req : http_Request) (script : list (error + http_Response))
  : list (error + http_Response) * nat * (error + http_Response) :=
  match script with
  | [] => ([], 0, inl (ForeignError "connection refused"))
  | r :: script => (script, String.length (ReqBody req), r)
  end.

Definition reply (code : Z) (body : string) : http_Response :=
  {| StatusCode := code; RespBody := body; RespHeader := ∅;
     ReadError := None; DecodeError := None |}.

(** Hooks. *)
Definition install_token (t : string) : Hook :=
  fun w => ({| env := env w; store := {| TokenID := t; authResult := None |} |}, None).
Definition proceed : Hook := fun w => (w, None).
Definition refuse (label : string) : Hook := fun w => (w, Some (ForeignError label)).

Definition plain_client : ProviderClient :=
  {| UserAgent := [];
     ReauthFunc := Some (install_token "fresh");
     Throwaway := false;
     RetryBackoffFunc := None;
     MaxBackoffRetries := 0;
     RetryFunc := None;
     HTTPClient_Do := scripted_Do;
     reauthmut := true |}.

(** A client that backs off on rate limiting, at most [k] times. *)
Definition backoff_client (k : N) : ProviderClient :=
  {| UserAgent := [];
     ReauthFunc := Some (install_token "fresh");
     Throwaway := false;
     RetryBackoffFunc := Some (fun _ _ _ => proceed);
     MaxBackoffRetries := k;
     RetryFunc := None;
     HTTPClient_Do := scripted_Do;
     reauthmut := true |}.

(** A client that also retries every other failure. *)
Definition retrying_client : ProviderClient :=
  {| UserAgent := [];
     ReauthFunc := Some (install_token "fresh");
     Throwaway := false;
     RetryBackoffFunc := Some (fun _ _ _ => proceed);
     MaxBackoffRetries := 0;
     RetryFunc := Some (fun _ _ _ _ _ => proceed);
     HTTPClient_Do := scripted_Do;
     reauthmut := true |}.

Definition plain : RequestOpts :=
  {| JSONBody := None; RawBody := None; JSONResponse := false; OkCodes := None;
     MoreHeaders := []; OmitHeaders := []; KeepResponseBody := false |}.

Definition with_stream (r : Reader) : RequestOpts :=
  {| JSONBody := None; RawBody := Some r; JSONResponse := false; OkCodes := None;
     MoreHeaders := []; OmitHeaders := []; KeepResponseBody := false |}.


(** The memory at the start of a call: the script, the token in the store. *)
Definition boot (script : list (error + http_Response)) (token : string) : Mem :=
  {| world := {| env := script; store := {| TokenID := token; authResult := None |} |};
     ongoing := None; offset := 0;
     state := {| hasReauthenticated := false; retries := 0 |};
     log := [] |}.

Definition url : string := "https://cloud.example/v2/servers".

(** Reading the parts of a result. *)
Definition returned (o : Outcome) : option Result :=
  match o with Returned r _ => Some r | _ => None end.

Definition exchanged_token (x : Exchange) : string :=
  match x with Exchanged tok _ _ => tok | _ => "" end.

Definition exchanged_reply (x : Exchange) : error + http_Response :=
  match x with Exchanged _ r _ => r | _ => inl (errorString "") end.

Definition exchanged_mem (m : Mem) (x : Exchange) : Mem :=
  match x with Exchanged _ _ m' => m' | Stalled m' => m' | Refused _ => m end.

Definition blocking_mem {A : Type} (b : Blocking A) : Mem :=
  match b with Got _ m => m | Blocks m => m end.

Definition blocking_value {A : Type} (b : Blocking A) : option A :=
  match b with Got a _ => Some a | Blocks _ => None end.

Definition next_mem (n : Next) : Mem :=
  match n with Return _ m | Again m | AgainAfterReauth m | Wait m => m end.

Definition asks_again (n : Next) : bool :=
  match n with Again _ => true | _ => false end.

Definition runs (cfg : Coordinator.Config) (acts : list Coordinator.Action)
  (st : TokenStore) : bool :=
  match Coordinator.run cfg acts (Coordinator.init st) with
  | Some _ => true
  | None => false
  end.

(** The failures shown to [RetryFunc] that were unexpected statuses. *)
Definition retried_statuses (l : list Event) : list (Z * N) :=
  rev (omap (fun e => match e with
                      | EvRetry (UnexpectedResponseCode u) n => Some (Actual u, n)
                      | _ => None
                      end) l).

(** The state a schedule leads to. *)
Definition reached (cfg : Coordinator.Config) (acts : list Coordinator.Action)
  (st : TokenStore) : Coordinator.State :=
  match Coordinator.run cfg acts (Coordinator.init st) with
  | Some s => s
  | None => Coordinator.init st
  end.

(** The runs used below. *)
Definition seekable : Reader := {| content := "payload"; seeking := IsSeeker None |}.
Definition unseekable : Reader := {| content := "payload"; seeking := NotSeeker |}.

Definition expired_then (code : Z) (body : string) : Mem :=
  fresh (boot [inr (reply 401 "expired"); inr (reply code body)] "stale").

Definition throttled : Mem :=
  fresh (boot [inr (reply 429 "a"); inr (reply 498 "b"); inr (reply 429 "c");
               inr (reply 200 "")] "tok").

(** A client without hooks, one whose reauthentication fails, and a
    throwaway client. *)
Definition bare_client : ProviderClient :=
  {| UserAgent := ["console/1.0"];
     ReauthFunc := None;
     Throwaway := false;
     RetryBackoffFunc := None;
     MaxBackoffRetries := 0;
     RetryFunc := None;
     HTTPClient_Do := scripted_Do;
     reauthmut := true |}.

Definition refusing_client : ProviderClient :=
  {| UserAgent := [];
     ReauthFunc := Some (refuse "bad credentials");
     Throwaway := false;
     RetryBackoffFunc := None;
     MaxBackoffRetries := 0;
     RetryFunc := None;
     HTTPClient_Do := scripted_Do;
     reauthmut := true |}.

Definition throwaway_client : ProviderClient :=
  {| UserAgent := [];
     ReauthFunc := None;
     Throwaway := true;
     RetryBackoffFunc := None;
     MaxBackoffRetries := 0;
     RetryFunc := None;
     HTTPClient_Do := scripted_Do;
     reauthmut := true |}.

Definition both_bodies : RequestOpts :=
  {| JSONBody := Some "{}"; RawBody := Some seekable; JSONResponse := false; OkCodes := None;
     MoreHeaders := []; OmitHeaders := []; KeepResponseBody := false |}.

Definition keep_and_decode : RequestOpts :=
  {| JSONBody := None; RawBody := None; JSONResponse := true; OkCodes := None;
     MoreHeaders := []; OmitHeaders := []; KeepResponseBody := true |}.

Definition decoding : RequestOpts :=
  {| JSONBody := None; RawBody := None; JSONResponse := true; OkCodes := None;
     MoreHeaders := []; OmitHeaders := []; KeepResponseBody := false |}.

Definition accepting (codes : list Z) : RequestOpts :=
  {| JSONBody := None; RawBody := None; JSONResponse := false; OkCodes := Some codes;
     MoreHeaders := []; OmitHeaders := []; KeepResponseBody := false |}.

Definition forging : RequestOpts :=
  {| JSONBody := None; RawBody := None; JSONResponse := false; OkCodes := None;
     MoreHeaders := [("x-auth-token", "forged")]; OmitHeaders := ["X-Auth-Token"];
     KeepResponseBody := false |}.

(** A 204 whose body would not decode. *)
Definition no_content : http_Response :=
  {| StatusCode := 204; RespBody := ""; RespHeader := ∅;
     ReadError := None; DecodeError := Some (ForeignError "EOF") |}.

(** A memory in which another goroutine's reauthentication is in flight. *)
Definition contended (script : list (error + http_Response)) (token : string) : Mem :=
  {| world := {| env := script; store := {| TokenID := token; authResult := None |} |};
     ongoing := Some newReauthFuture; offset := 0;
     state := {| hasReauthenticated := false; retries := 0 |};
     log := [] |}.

(** The state a schedule leads to from a given state. *)
Definition continued (cfg : Coordinator.Config) (acts : list Coordinator.Action)
  (s : Coordinator.State) : Coordinator.State :=
  match Coordinator.run cfg acts s with
  | Some s' => s'
  | None => s
  end.

Definition continues (cfg : Coordinator.Config) (acts : list Coordinator.Action)
  (s : Coordinator.State) : bool :=
  match Coordinator.run cfg acts s with
  | Some _ => true
  | None => false
  end.

Definition good_result : AuthResult := {| ExtractTokenID := ("fresh", None) |}.
Definition bad_result : AuthResult := {| ExtractTokenID := ("", Some (ForeignError "no token")) |}.

(** Three goroutines that meet a 401 with the same stale token. *)
Definition locked : Coordinator.Config :=
  {| Coordinator.has_ReauthFunc := true; Coordinator.has_reauthmut := true;
     Coordinator.is_throwaway := false |}.

Definition stale_store : TokenStore := {| TokenID := "stale"; authResult := None |}.
Definition fresh_store : TokenStore := {| TokenID := "fresh"; authResult := None |}.


(** The same up to the publication, and what follows it. *)
Definition storm_published : list Coordinator.Action :=
  [ Coordinator.CallReauthenticate 0 "stale"; Coordinator.CallReauthenticate 1 "stale";
    Coordinator.CallReauthenticate 2 "stale";
    Coordinator.Lock 1; Coordinator.Lock 0; Coordinator.Lock 2;
    Coordinator.Decide 1; Coordinator.ReauthFuncReturns 1 fresh_store None;
    Coordinator.Publish 1 ].

Definition storm_rest : list Coordinator.Action :=
  [ Coordinator.Receive 0; Coordinator.CallReauthenticate 1 ""; Coordinator.Lock 1;
    Coordinator.Receive 2 ].

(** Goroutine 0 has come back from [ReauthFunc] with an error and is about
    to publish it. *)
Definition about_to_publish : list Coordinator.Action :=
  [ Coordinator.CallReauthenticate 0 ""; Coordinator.Lock 0; Coordinator.Decide 0;
    Coordinator.CallReauthenticate 1 "stale"; Coordinator.Lock 1;
    Coordinator.ReauthFuncReturns 0 stale_store (Some (ForeignError "bad credentials")) ].

(** Goroutine 0 is inside [ReauthFunc]; goroutine 1 waits in
    [Reauthenticate], goroutine 2 in [AuthenticatedHeaders]; then the
    contexts of both waiters are canceled. *)
Definition canceled_waiters : list Coordinator.Action :=
  [ Coordinator.CallReauthenticate 0 "stale"; Coordinator.Lock 0; Coordinator.Decide 0;
    Coordinator.CallReauthenticate 1 "stale"; Coordinator.Lock 1;
    Coordinator.CallAuthenticatedHeaders 2; Coordinator.Observe 2;
    Coordinator.Cancel 1; Coordinator.Cancel 2 ].

(** A late caller whose 401 was answered under a token already replaced. *)
Definition latecomer : list Coordinator.Action :=
  [ Coordinator.CallReauthenticate 0 "older"; Coordinator.Lock 0;
    Coordinator.CallReauthenticate 1 "older"; Coordinator.Lock 1 ].

End Scenario.

(** * Properties *)

(** ** Token store *)

(** C10.  [SetTokenAndAuthResult] with a non-nil result whose
    [ExtractTokenID] fails returns that error and leaves the token and the
    cached result as they were; when it succeeds, and for a nil result, the
    token and the cached result are replaced together. *)
Theorem SetTokenAndAuthResult_atomic (c : TokenStore) (a : AuthResult) :
  (forall e, snd (ExtractTokenID a) = Some e ->
             SetTokenAndAuthResult (Some a) c = (c, Some e))
  /\ (snd (ExtractTokenID a) = None ->
      SetTokenAndAuthResult (Some a) c
      = ({| TokenID := fst (ExtractTokenID a); authResult := Some a |}, None))
  /\ SetTokenAndAuthResult None c = ({| TokenID := ""; authResult := None |}, None).
Proof.
  unfold SetTokenAndAuthResult. destruct (ExtractTokenID a) as [tok [e|]]; simpl.
  - split; [intros e' [= <-]; reflexivity|]. split; [discriminate|reflexivity].
  - split; [discriminate|]. split; reflexivity.
Qed.

(** ** The request executor *)

Module ExecutorFacts.
Import Executor.

Section Facts.
Context `{Platform}.

Lemma call_frame (f : Hook) (m : Mem) :
  let m' := snd (call f m) in
  log m' = log m /\ state m' = state m /\ ongoing m' = ongoing m /\ offset m' = offset m.
Proof. unfold call. destruct (f (world m)) as [w e]. simpl. auto. Qed.

Lemma call_eq (f : Hook) (m : Mem) e m' :
  call f m = (e, m') ->
  log m' = log m /\ state m' = state m /\ ongoing m' = ongoing m /\ offset m' = offset m.
Proof. intros Hc. pose proof (call_frame f m) as Hf. rewrite Hc in Hf. exact Hf. Qed.

Lemma exchange_Exchanged client method url options m tok r m1 :
  exchange client method url options m = Exchanged tok r m1 ->
  exists req, log m1 = EvDo req :: log m /\ state m1 = state m /\ ongoing m1 = ongoing m.
Proof.
  unfold exchange. destruct (prepare method url options) as [e|[body ct]]; [discriminate|].
  destruct (AuthenticatedHeaders client m) as [auth m0|m0] eqn:Ha; [|discriminate].
  assert (m0 = m) as ->.
  { unfold AuthenticatedHeaders in Ha. repeat case_match; congruence. }
  unfold transmit.
  destruct (HTTPClient_Do client _ _) as [[env' consumed] r'].
  intros [= <- <- <-]. eexists. destruct body; simpl; auto.
Qed.

Lemma exchange_Stalled client method url options m m1 :
  exchange client method url options m = Stalled m1 -> m1 = m.
Proof.
  unfold exchange. destruct (prepare method url options) as [e|[body ct]]; [discriminate|].
  destruct (AuthenticatedHeaders client m) as [auth m0|m0] eqn:Ha.
  - destruct (transmit _ _ _ _); discriminate.
  - intros [= <-]. unfold AuthenticatedHeaders in Ha. repeat case_match; congruence.
Qed.

Lemma consult_RetryFunc_reauths client method url options e a u m :
  match consult_RetryFunc client method url options e a u m with
  | Return _ m' | Again m' =>
      reauths m' = reauths m /\ hasReauthenticated (state m') = hasReauthenticated (state m)
  | _ => False
  end.
Proof.
  unfold consult_RetryFunc. destruct (RetryFunc client) as [f|]; [|done].
  destruct (call _ _) as [e' m'] eqn:Hc. apply call_eq in Hc as (Hl & Hs & _).
  unfold reauths. destruct e'; rewrite Hl, Hs; simpl; auto.
Qed.

Lemma Reauthenticate_reauths client tok m :
  match Reauthenticate client tok m with
  | Got _ m' | Blocks m' => reauths m' = S (reauths m) /\ state m' = state m
  end.
Proof.
  unfold Reauthenticate, reauths.
  destruct (ReauthFunc client) as [f|]; [|done].
  destruct (negb (reauthmut client)).
  - destruct (call _ _) as [e m'] eqn:Hc. apply call_eq in Hc as (Hl & Hs & _).
    rewrite Hl, Hs. done.
  - simpl. destruct (ongoing m) as [running|].
    + destruct (reauthFuture_Get running); done.
    + match goal with |- context [if ?b then _ else _] => destruct b end.
      * destruct (call _ _) as [e m'] eqn:Hc. apply call_eq in Hc as (Hl & Hs & _).
        simpl. rewrite Hl, Hs. done.
      * done.
Qed.

Lemma rewind_frame options m e m' :
  rewind options m = (e, m') -> reauths m' = reauths m /\ state m' = state m.
Proof.
  unfold rewind, reauths. repeat case_match; intros [= <- <-]; done.
Qed.

Lemma unacceptable_reauths client method url options okc tok resp m :
  match unacceptable client method url options okc tok resp m with
  | Return _ m' | Wait m' => reauths m' <= reauths m + allowance m
  | Again m' =>
      reauths m' = reauths m /\ hasReauthenticated (state m') = hasReauthenticated (state m)
  | AgainAfterReauth m' =>
      hasReauthenticated (state m) = false /\ hasReauthenticated (state m') = true
      /\ reauths m' = S (reauths m)
  end.
Proof.
  unfold unacceptable.
  set (respErr := {| URL := url |}).
  pose proof (consult_RetryFunc_reauths client method url options
                (UnexpectedResponseCode respErr) (Some resp) (Some resp) m) as Hother.
  destruct (StatusCode resp =? 401)%Z.
  - destruct (bool_decide _ && negb (hasReauthenticated (state m))) eqn:Hguard.
    + apply andb_true_iff in Hguard as [_ Hflag]. apply negb_true_iff in Hflag.
      pose proof (Reauthenticate_reauths client tok m) as Hre.
      unfold allowance. rewrite Hflag.
      destruct (Reauthenticate client tok m) as [[e|] m1|m1]; destruct Hre as [Hn Hs];
        try lia.
      destruct (rewind options m1) as [[e|] m2] eqn:Hw;
        apply rewind_frame in Hw as [Hn2 Hs2]; simpl; try lia.
      repeat split. unfold reauths in *. simpl. lia.
    + destruct (consult_RetryFunc _ _ _ _ _ _ _ _); intuition lia.
  - destruct ((StatusCode resp =? 429)%Z || (StatusCode resp =? 498)%Z).
    + destruct (RetryBackoffFunc client) as [f|].
      * destruct (retries (state m) <? maxTries client)%N.
        -- destruct (call _ _) as [e m'] eqn:Hc. apply call_eq in Hc as (Hl & Hs & _).
           destruct e; unfold reauths, count; rewrite Hl, ?Hs; simpl; [lia|auto].
        -- destruct (consult_RetryFunc _ _ _ _ _ _ _ _); intuition lia.
      * destruct (consult_RetryFunc _ _ _ _ _ _ _ _); intuition lia.
    + destruct (consult_RetryFunc _ _ _ _ _ _ _ _); intuition lia.
Qed.

Lemma acceptable_reauths client method url options resp m :
  match acceptable client method url options resp m with
  | Return _ m' | Again m' =>
      reauths m' = reauths m /\ hasReauthenticated (state m') = hasReauthenticated (state m)
  | _ => False
  end.
Proof.
  unfold acceptable.
  destruct (JSONResponse options).
  - destruct (StatusCode resp =? 204)%Z; [done|].
    destruct (DecodeError resp); [|done]. apply consult_RetryFunc_reauths.
  - destruct (negb _); [|done]. destruct (ReadError resp); done.
Qed.

Lemma attempt_reauths client method url options m :
  match attempt client method url options m with
  | Return _ m' | Wait m' => reauths m' <= reauths m + allowance m
  | Again m' =>
      reauths m' = reauths m /\ hasReauthenticated (state m') = hasReauthenticated (state m)
  | AgainAfterReauth m' =>
      hasReauthenticated (state m) = false /\ hasReauthenticated (state m') = true
      /\ reauths m' = S (reauths m)
  end.
Proof.
  unfold attempt.
  destruct (exchange client method url options m) as [e|m1|tok [e|resp] m1] eqn:Hx.
  - lia.
  - apply exchange_Stalled in Hx as ->. lia.
  - apply exchange_Exchanged in Hx as (req & Hl & Hs & _).
    pose proof (consult_RetryFunc_reauths client method url options e None None m1) as Hr.
    assert (reauths m1 = reauths m) as Hm by (unfold reauths; rewrite Hl; done).
    rewrite <- Hm, <- Hs.
    destruct (consult_RetryFunc _ _ _ _ _ _ _ _); intuition lia.
  - apply exchange_Exchanged in Hx as (req & Hl & Hs & _).
    assert (reauths m1 = reauths m) as Hm by (unfold reauths; rewrite Hl; done).
    assert (allowance m1 = allowance m) as Ha by (unfold allowance; rewrite Hs; done).
    rewrite <- Hm, <- Ha, <- Hs.
    destruct (accepts _ resp).
    + pose proof (acceptable_reauths client method url options resp m1) as Hr.
      destruct (acceptable _ _ _ _ _ _); intuition lia.
    + apply unacceptable_reauths.
Qed.

Lemma doRequest_reauths fuel client method url options m :
  reauths (final (doRequest fuel client method url options m)) <= reauths m + allowance m.
Proof.
  revert m. induction fuel as [|fuel IH]; intros m; simpl; [lia|].
  pose proof (attempt_reauths client method url options m) as Ha.
  destruct (attempt client method url options m) as [r m'|m'|m'|m']; simpl; try lia.
  - destruct Ha as [Hn Hf]. specialize (IH m'). unfold allowance in *. rewrite Hf in IH. lia.
  - destruct Ha as (Hf & Hf' & Hn). specialize (IH m').
    assert (reauths (final (doRequest fuel client method url options m')) <= S (reauths m)).
    { unfold allowance in IH. rewrite Hf' in IH. lia. }
    unfold allowance. rewrite Hf.
    destruct (doRequest fuel client method url options m') as [[resp [e|]] m2|m2|m2];
      simpl in *; lia.
Qed.

(** C2.  A call of [Request] calls [Reauthenticate] at most once, however
    many 401 responses it receives: the flag starts false, a pass that
    reauthenticates and retries sets it, and from a memory whose flag is set
    [doRequest] never calls [Reauthenticate] again. *)
Theorem reauthenticates_at_most_once fuel client method url options m :
  hasReauthenticated (state (fresh m)) = false
  /\ reauths (final (Request fuel client method url options m)) <= reauths m + 1
  /\ reauths (final (doRequest fuel client method url options m)) <= reauths m + allowance m
  /\ match attempt client method url options m with
     | AgainAfterReauth m1 =>
         hasReauthenticated (state m) = false /\ hasReauthenticated (state m1) = true
         /\ reauths m1 = S (reauths m)
     | Again m1 =>
         hasReauthenticated (state m1) = hasReauthenticated (state m) /\ reauths m1 = reauths m
     | Return _ m1 | Wait m1 => reauths m1 <= reauths m + allowance m
     end.
Proof.
  split; [reflexivity|]. split; [|split].
  - unfold Request. pose proof (doRequest_reauths fuel client method url options (fresh m)) as Hd.
    unfold allowance, reauths in *. simpl in *. lia.
  - apply doRequest_reauths.
  - pose proof (attempt_reauths client method url options m) as Ha.
    destruct (attempt client method url options m); intuition.
Qed.

(** *** Errors after a reauthentication *)

Lemma unacceptable_401 client method url options okc tok resp m :
  StatusCode resp = 401%Z ->
  ReauthFunc client <> None ->
  hasReauthenticated (state m) = false ->
  unacceptable client method url options okc tok resp m =
  match Reauthenticate client tok m with
  | Blocks m => Wait m
  | Got (Some e) m =>
      Return (None, Some (ErrUnableToReauthenticate
                            (UnexpectedResponseCode
                               {| URL := url; Method := method; Expected := okc;
                                  Actual := StatusCode resp; Body := RespBody resp;
                                  ResponseHeader := RespHeader resp |}) e)) m
  | Got None m =>
      match rewind options m with
      | (Some e, m) => Return (None, Some e) m
      | (None, m) =>
          AgainAfterReauth
            (set_state {| hasReauthenticated := true; retries := retries (state m) |} m)
      end
  end.
Proof.
  intros Hs Hf Hflag. unfold unacceptable. rewrite Hs, Hflag. simpl.
  rewrite bool_decide_eq_true_2 by done. reflexivity.
Qed.

Lemma attempt_unaccepted client method url options m tok resp m1 :
  exchange client method url options m = Exchanged tok (inr resp) m1 ->
  accepts (accepted_codes method options) resp = false ->
  attempt client method url options m =
  unacceptable client method url options (accepted_codes method options) tok resp m1.
Proof. intros Hx Ha. unfold attempt. rewrite Hx. simpl. rewrite Ha. reflexivity. Qed.

(** C3 (as the code has it).  When a 401 triggers a reauthentication that
    succeeds and the retried request fails with [e], the caller gets
    [ErrErrorAfterReauthentication] holding [e]: its causal chain is itself
    followed by the chain of [e], and nothing else. *)
Theorem error_after_reauthentication_wraps_retry
  fuel client method url options m tok resp401 m1 m2 m3 resp e m4 :
  exchange client method url options m = Exchanged tok (inr resp401) m1 ->
  StatusCode resp401 = 401%Z ->
  accepts (accepted_codes method options) resp401 = false ->
  ReauthFunc client <> None ->
  hasReauthenticated (state m) = false ->
  Reauthenticate client tok m1 = Got None m2 ->
  rewind options m2 = (None, m3) ->
  doRequest fuel client method url options
    (set_state {| hasReauthenticated := true; retries := retries (state m3) |} m3)
    = Returned (resp, Some e) m4 ->
  doRequest (S fuel) client method url options m
    = Returned (None, Some (ErrErrorAfterReauthentication e)) m4
  /\ forall x, In x (causes (ErrErrorAfterReauthentication e))
               <-> x = ErrErrorAfterReauthentication e \/ In x (causes e).
Proof.
  intros Hx Hs Ha Hf Hflag Hre Hw Hd. split.
  - simpl. rewrite (attempt_unaccepted _ _ _ _ _ _ _ _ Hx Ha).
    rewrite unacceptable_401; auto.
    + rewrite Hre, Hw, Hd. destruct e; reflexivity.
    + apply exchange_Exchanged in Hx as (_ & _ & -> & _). exact Hflag.
  - intros x. simpl. intuition.
Qed.

(** *** Backoff on rate limiting *)

Lemma exchange_backoffs client method url options m tok r m1 :
  exchange client method url options m = Exchanged tok r m1 ->
  backoffs m1 = backoffs m /\ state m1 = state m.
Proof.
  intros Hx. apply exchange_Exchanged in Hx as (req & Hl & Hs & _).
  unfold backoffs, count. rewrite Hl. auto.
Qed.

Lemma Reauthenticate_backoffs client tok m :
  match Reauthenticate client tok m with
  | Got _ m' | Blocks m' => backoffs m' = backoffs m /\ state m' = state m
  end.
Proof.
  unfold Reauthenticate, backoffs, count.
  destruct (ReauthFunc client) as [f|]; [|done].
  destruct (negb (reauthmut client)).
  - destruct (call _ _) as [e m'] eqn:Hc. apply call_eq in Hc as (Hl & Hs & _).
    rewrite Hl, Hs. done.
  - simpl. destruct (ongoing m) as [running|].
    + destruct (reauthFuture_Get running); done.
    + match goal with |- context [if ?b then _ else _] => destruct b end.
      * destruct (call _ _) as [e m'] eqn:Hc. apply call_eq in Hc as (Hl & Hs & _).
        simpl. rewrite Hl, Hs. done.
      * done.
Qed.

Lemma rewind_backoffs options m e m' :
  rewind options m = (e, m') -> backoffs m' = backoffs m /\ state m' = state m.
Proof.
  unfold rewind, backoffs, count. repeat case_match; intros [= <- <-]; done.
Qed.

Lemma maxTries_uint client :
  (MaxBackoffRetries client < uint_modulus)%N -> (maxTries client < uint_modulus)%N.
Proof.
  unfold maxTries, DefaultMaxBackoffRetries, uint_modulus.
  destruct (MaxBackoffRetries client =? 0)%N; [reflexivity|done].
Qed.

Lemma maxTries_positive client : (0 < maxTries client)%N.
Proof.
  unfold maxTries, DefaultMaxBackoffRetries.
  destruct (MaxBackoffRetries client =? 0)%N eqn:Hz; [reflexivity|].
  apply N.eqb_neq in Hz. lia.
Qed.

Lemma uint_succ_below (n k : N) : (n < k)%N -> (k < uint_modulus)%N -> uint_succ n = (n + 1)%N.
Proof. intros Hn Hk. unfold uint_succ. apply N.mod_small. lia. Qed.

Lemma unacceptable_rate_limited client method url options okc tok resp m :
  rate_limited resp = true ->
  unacceptable client method url options okc tok resp m =
  let respErr := {| URL := url; Method := method; Expected := okc;
                    Actual := StatusCode resp; Body := RespBody resp;
                    ResponseHeader := RespHeader resp |} in
  let otherwise :=
    consult_RetryFunc client method url options (UnexpectedResponseCode respErr)
      (Some resp) (Some resp) m in
  match RetryBackoffFunc client with
  | Some f =>
      if (retries (state m) <? maxTries client)%N then
        let '(e, m') := call (f respErr None (uint_succ (retries (state m))))
                          (emit (EvBackoff respErr (uint_succ (retries (state m)))) (bump m)) in
        match e with
        | Some e => Return (Some resp, Some e) m'
        | None => Again m'
        end
      else otherwise
  | None => otherwise
  end.
Proof.
  unfold rate_limited, unacceptable. intros Hr. rewrite Hr.
  assert ((StatusCode resp =? 401)%Z = false) as ->.
  { apply orb_true_iff in Hr as [Hr|Hr]; apply Z.eqb_eq in Hr; rewrite Hr; reflexivity. }
  reflexivity.
Qed.

Lemma unacceptable_counted client method url options okc tok resp base m :
  RetryFunc client = None ->
  (MaxBackoffRetries client < uint_modulus)%N ->
  counted base (maxTries client) m ->
  match unacceptable client method url options okc tok resp m with
  | Return _ m' | Wait m' | Again m' | AgainAfterReauth m' => counted base (maxTries client) m'
  end.
Proof.
  intros Hno Hu Hc. unfold unacceptable.
  set (respErr := {| URL := url |}).
  assert (consult_RetryFunc client method url options (UnexpectedResponseCode respErr)
            (Some resp) (Some resp) m
          = Return (Some resp, Some (UnexpectedResponseCode respErr)) m) as Hother.
  { unfold consult_RetryFunc. rewrite Hno. reflexivity. }
  rewrite Hother.
  destruct (StatusCode resp =? 401)%Z.
  - destruct (bool_decide _ && _); [|done].
    pose proof (Reauthenticate_backoffs client tok m) as Hre.
    destruct (Reauthenticate client tok m) as [[e|] m1|m1]; destruct Hre as [Hb Hs];
      try (unfold counted; rewrite Hb, Hs; exact Hc).
    destruct (rewind options m1) as [[e|] m2] eqn:Hw; apply rewind_backoffs in Hw as [Hb2 Hs2];
      unfold counted in *; unfold backoffs in *; simpl; rewrite Hb2, Hs2, Hb, Hs; exact Hc.
  - destruct (_ || _); [|done].
    destruct (RetryBackoffFunc client) as [f|]; [|done].
    destruct (retries (state m) <? maxTries client)%N eqn:Hlt; [|done].
    apply N.ltb_lt in Hlt.
    destruct (call _ _) as [e m'] eqn:Hcall. apply call_eq in Hcall as (Hl & Hs & _).
    assert (counted base (maxTries client) m') as Hc'.
    { destruct Hc as [Hc1 Hc2]. unfold counted, backoffs, count in *. rewrite Hl, Hs. simpl.
      rewrite (uint_succ_below _ _ Hlt (maxTries_uint _ Hu)). lia. }
    destruct e; exact Hc'.
Qed.

Lemma attempt_counted client method url options base m :
  RetryFunc client = None ->
  (MaxBackoffRetries client < uint_modulus)%N ->
  counted base (maxTries client) m ->
  match attempt client method url options m with
  | Return _ m' | Wait m' | Again m' | AgainAfterReauth m' => counted base (maxTries client) m'
  end.
Proof.
  intros Hno Hu Hc. unfold attempt.
  destruct (exchange client method url options m) as [e|m1|tok [e|resp] m1] eqn:Hx.
  - exact Hc.
  - apply exchange_Stalled in Hx as ->. exact Hc.
  - apply exchange_backoffs in Hx as [Hb Hs].
    unfold consult_RetryFunc. rewrite Hno. unfold counted. rewrite Hb, Hs. exact Hc.
  - apply exchange_backoffs in Hx as [Hb Hs].
    assert (counted base (maxTries client) m1) as Hc1
        by (unfold counted; rewrite Hb, Hs; exact Hc).
    destruct (accepts _ resp).
    + unfold acceptable, consult_RetryFunc. rewrite Hno.
      destruct (JSONResponse options).
      * destruct (StatusCode resp =? 204)%Z; [exact Hc1|]. destruct (DecodeError resp); exact Hc1.
      * destruct (negb _); [|exact Hc1]. destruct (ReadError resp); exact Hc1.
    + apply unacceptable_counted; assumption.
Qed.

Lemma doRequest_counted fuel client method url options base m :
  RetryFunc client = None ->
  (MaxBackoffRetries client < uint_modulus)%N ->
  counted base (maxTries client) m ->
  counted base (maxTries client) (final (doRequest fuel client method url options m)).
Proof.
  intros Hno Hu. revert m. induction fuel as [|fuel IH]; intros m Hc; simpl; [exact Hc|].
  pose proof (attempt_counted client method url options base m Hno Hu Hc) as Ha.
  destruct (attempt client method url options m) as [r m'|m'|m'|m']; simpl; auto.
  specialize (IH m' Ha).
  destruct (doRequest fuel client method url options m') as [[resp [e|]] m2|m2|m2]; exact IH.
Qed.

Lemma passes_counted client method url options base m m' :
  RetryFunc client = None ->
  (MaxBackoffRetries client < uint_modulus)%N ->
  passes client method url options m m' ->
  counted base (maxTries client) m -> counted base (maxTries client) m'.
Proof.
  intros Hno Hu Hp. induction Hp as [m|m m1 m2 Ha _ IH|m m1 m2 Ha _ IH]; intros Hc; auto.
  - apply IH. pose proof (attempt_counted client method url options base m Hno Hu Hc) as H'.
    rewrite Ha in H'. exact H'.
  - apply IH. pose proof (attempt_counted client method url options base m Hno Hu Hc) as H'.
    rewrite Ha in H'. exact H'.
Qed.

Lemma counted_fresh m : forall k, counted (backoffs m) k (fresh m).
Proof. intros k. unfold counted, fresh, backoffs. simpl. lia. Qed.

(** C4.  With a backoff function, no [RetryFunc] and the ceiling
    [K = maxTries] (the configured [MaxBackoffRetries], or 60 when that is
    0): a call makes at most [K] backoff calls; a rate-limit response
    received after [K] backoff calls is returned as an error with no further
    backoff call; an error from the backoff function is returned at once. *)
Theorem backoff_calls_bounded client method url options f :
  RetryBackoffFunc client = Some f ->
  RetryFunc client = None ->
  (MaxBackoffRetries client < uint_modulus)%N ->
  (maxTries client = if (MaxBackoffRetries client =? 0)%N then 60%N else MaxBackoffRetries client)
  /\ (forall fuel m,
        backoffs (final (Request fuel client method url options m))
        <= backoffs m + N.to_nat (maxTries client))
  /\ (forall m0 m tok resp m1,
        passes client method url options (fresh m0) m ->
        backoffs m = backoffs m0 + N.to_nat (maxTries client) ->
        exchange client method url options m = Exchanged tok (inr resp) m1 ->
        rate_limited resp = true ->
        accepts (accepted_codes method options) resp = false ->
        backoffs m1 = backoffs m
        /\ forall fuel,
            doRequest (S fuel) client method url options m
            = Returned (Some resp,
                        Some (UnexpectedResponseCode (respErr_of method url options resp))) m1)
  /\ (forall m tok resp m1 w e,
        exchange client method url options m = Exchanged tok (inr resp) m1 ->
        rate_limited resp = true ->
        accepts (accepted_codes method options) resp = false ->
        (retries (state m) < maxTries client)%N ->
        f (respErr_of method url options resp) None (uint_succ (retries (state m))) (world m1)
          = (w, Some e) ->
        forall fuel,
          doRequest (S fuel) client method url options m
          = Returned (Some resp, Some e)
              (set_world w
                 (emit (EvBackoff (respErr_of method url options resp)
                          (uint_succ (retries (state m)))) (bump m1)))).
Proof.
  intros Hf Hno Hu. split; [reflexivity|]. split; [|split].
  - intros fuel m. unfold Request.
    pose proof (doRequest_counted fuel client method url options (backoffs m) (fresh m) Hno Hu
                  (counted_fresh m _)) as [Hc1 Hc2].
    lia.
  - intros m0 m tok resp m1 Hp Hk Hx Hr Ha.
    pose proof (passes_counted _ _ _ _ _ _ _ Hno Hu Hp (counted_fresh m0 _)) as [Hc1 Hc2].
    assert (retries (state m) = maxTries client) as Hret by lia.
    pose proof (exchange_backoffs _ _ _ _ _ _ _ _ Hx) as [Hb Hs].
    split; [exact Hb|]. intros fuel. simpl.
    rewrite (attempt_unaccepted _ _ _ _ _ _ _ _ Hx Ha).
    rewrite (unacceptable_rate_limited _ _ _ _ _ _ _ _ Hr). simpl.
    rewrite Hf, Hs, Hret, N.ltb_irrefl.
    unfold consult_RetryFunc. rewrite Hno. reflexivity.
  - intros m tok resp m1 w e Hx Hr Ha Hlt Hcall fuel. simpl.
    pose proof (exchange_backoffs _ _ _ _ _ _ _ _ Hx) as [Hb Hs].
    rewrite (attempt_unaccepted _ _ _ _ _ _ _ _ Hx Ha).
    rewrite (unacceptable_rate_limited _ _ _ _ _ _ _ _ Hr). simpl.
    rewrite Hf, Hs. apply N.ltb_lt in Hlt. rewrite Hlt.
    unfold call. simpl. unfold respErr_of in Hcall. rewrite Hcall.
    unfold respErr_of, bump. rewrite Hs. reflexivity.
Qed.

(** C9 (as the code has it).  The ceiling is never 0: it is 60 when
    [MaxBackoffRetries] is 0.  A rate-limit response that is not accepted
    makes the backoff function run whenever the retry counter of the call,
    which counts backoffs and generic retries alike, is below the ceiling;
    this is so in particular while the counter is still 0. *)
Theorem backoff_runs_below_ceiling client method url options f m tok resp m1 :
  RetryBackoffFunc client = Some f ->
  exchange client method url options m = Exchanged tok (inr resp) m1 ->
  rate_limited resp = true ->
  accepts (accepted_codes method options) resp = false ->
  let backs_off :=
    exists m',
      log m' = EvBackoff (respErr_of method url options resp) (uint_succ (retries (state m)))
                 :: log m1
      /\ (attempt client method url options m = Again m'
          \/ exists e, attempt client method url options m = Return (Some resp, Some e) m') in
  (MaxBackoffRetries client = 0%N -> maxTries client = DefaultMaxBackoffRetries)
  /\ (0 < maxTries client)%N
  /\ ((retries (state m) < maxTries client)%N -> backs_off)
  /\ (retries (state m) = 0%N -> backs_off).
Proof.
  intros Hf Hx Hr Ha backs_off.
  assert ((retries (state m) < maxTries client)%N -> backs_off) as Hmain.
  { intros Hlt. unfold backs_off.
    pose proof (exchange_backoffs _ _ _ _ _ _ _ _ Hx) as [_ Hs].
    rewrite (attempt_unaccepted _ _ _ _ _ _ _ _ Hx Ha).
    rewrite (unacceptable_rate_limited _ _ _ _ _ _ _ _ Hr). simpl.
    rewrite Hf, Hs. apply N.ltb_lt in Hlt. rewrite Hlt.
    destruct (call _ _) as [e m'] eqn:Hc. apply call_eq in Hc as (Hl & _).
    exists m'. split; [rewrite Hl; reflexivity|]. destruct e; eauto. }
  split; [|split; [|split]].
  - intros Hz. unfold maxTries. rewrite Hz. reflexivity.
  - apply maxTries_positive.
  - exact Hmain.
  - intros Hz. apply Hmain. rewrite Hz. apply maxTries_positive.
Qed.

(** *** Rewinding a stream body *)

Lemma drop_bytes_0 s : drop_bytes 0 s = s.
Proof. destruct s; reflexivity. Qed.

Lemma prepare_stream method url options r body ct :
  RawBody options = Some r ->
  prepare method url options = inr (body, ct) -> body = Stream r.
Proof.
  unfold prepare. intros ->.
  destruct (JSONBody options); [discriminate|].
  destruct (_ && _); [discriminate|].
  destruct (NewRequest_error method url); [discriminate|].
  intros [= <- <-]. reflexivity.
Qed.

Lemma exchange_stream client method url options r m tok res m1 :
  RawBody options = Some r ->
  exchange client method url options m = Exchanged tok res m1 ->
  exists req, log m1 = EvDo req :: log m /\ ReqBody req = drop_bytes (offset m) (content r).
Proof.
  intros Hraw. unfold exchange.
  destruct (prepare method url options) as [e|[body ct]] eqn:Hp; [discriminate|].
  apply (prepare_stream _ _ _ _ _ _ Hraw) in Hp as ->.
  destruct (AuthenticatedHeaders client m) as [auth m0|m0] eqn:Ha; [|discriminate].
  assert (m0 = m) as ->.
  { unfold AuthenticatedHeaders in Ha. repeat case_match; congruence. }
  unfold transmit.
  destruct (HTTPClient_Do client _ _) as [[env' consumed] r'].
  intros [= <- <- <-]. eexists. split; reflexivity.
Qed.

(** C5 (as the code has it).  On the retry that follows a successful
    reauthentication after a 401, a [RawBody] that is an [io.Seeker] is
    rewound to offset 0 and the retried request carries the stream from its
    start; if [Seek] fails its error is returned and nothing is sent again; a
    [RawBody] that is no [io.Seeker] is retried as it stands, without an
    error. *)
Theorem rewinds_after_reauthentication client method url options r m tok resp m1 m2 :
  RawBody options = Some r ->
  exchange client method url options m = Exchanged tok (inr resp) m1 ->
  StatusCode resp = 401%Z ->
  accepts (accepted_codes method options) resp = false ->
  ReauthFunc client <> None ->
  hasReauthenticated (state m) = false ->
  Reauthenticate client tok m1 = Got None m2 ->
  match seeking r with
  | IsSeeker None =>
      let m3 := set_state {| hasReauthenticated := true; retries := retries (state m2) |}
                  (set_offset 0 (emit EvSeek m2)) in
      attempt client method url options m = AgainAfterReauth m3
      /\ offset m3 = 0
      /\ forall tok' res m4,
          exchange client method url options m3 = Exchanged tok' res m4 ->
          exists req, log m4 = EvDo req :: log m3 /\ ReqBody req = content r
  | IsSeeker (Some e) =>
      attempt client method url options m = Return (None, Some e) (emit EvSeek m2)
  | NotSeeker =>
      let m3 := set_state {| hasReauthenticated := true; retries := retries (state m2) |} m2 in
      attempt client method url options m = AgainAfterReauth m3
      /\ offset m3 = offset m2
  end.
Proof.
  intros Hraw Hx Hs Ha Hf Hflag Hre.
  assert (attempt client method url options m
          = match rewind options m2 with
            | (Some e, m) => Return (None, Some e) m
            | (None, m) =>
                AgainAfterReauth
                  (set_state {| hasReauthenticated := true; retries := retries (state m) |} m)
            end) as Hatt.
  { rewrite (attempt_unaccepted _ _ _ _ _ _ _ _ Hx Ha).
    rewrite unacceptable_401; auto.
    - rewrite Hre. reflexivity.
    - apply exchange_Exchanged in Hx as (_ & _ & -> & _). exact Hflag. }
  rewrite Hatt. unfold rewind. rewrite Hraw.
  destruct (seeking r) as [|[e|]]; simpl.
  - split; reflexivity.
  - reflexivity.
  - split; [reflexivity|]. split; [reflexivity|].
    intros tok' res m4 Hx'.
    apply (exchange_stream _ _ _ _ _ _ _ _ _ Hraw) in Hx' as (req & Hl & Hb).
    exists req. split; [exact Hl|]. rewrite Hb. simpl. apply drop_bytes_0.
Qed.

(** *** Headers *)



Lemma AuthenticatedHeaders_Got client m auth m' :
  AuthenticatedHeaders client m = Got auth m' ->
  m' = m
  /\ auth = if Throwaway client || String.eqb (Token (store (world m))) "" then []
            else [("X-Auth-Token", Token (store (world m)))].
Proof.
  unfold AuthenticatedHeaders. destruct (Throwaway client); simpl.
  - intros [= <- <-]. auto.
  - destruct (String.eqb _ ""); repeat case_match; intros [= <- <-]; auto.
Qed.


End Facts.
End ExecutorFacts.

(** ** The reauthentication coordinator *)

Module CoordinatorFacts.
Import Coordinator.

Lemma init_Inv st : Inv (init st).
Proof.
  constructor; simpl; try done.
  constructor.
Qed.

Ltac lookups :=
  unfold insert, fn_insert in *; simpl in *;
  repeat (case_decide; simplify_eq/=); simplify_eq/=.

Lemma move_neutral t p s : neutral p -> Inv s -> Inv (move t p s).
Proof.
  intros Hp [Im Is Io Ie Ip Iow Ir In Ik Iret Isk Ipub].
  constructor; simpl; auto; intros; lookups; try done; try (destruct p; done); eauto.
Qed.

Lemma cancel_Inv t s : Inv s -> Inv (cancel t s).
Proof.
  intros [Im Is Io Ie Ip Iow Ir In Ik Iret Isk Ipub].
  constructor; simpl; auto; intros; lookups; eauto.
Qed.

Lemma set_store_Inv st s : Inv s -> Inv (set_store st s).
Proof. intros [Im Is Io Ie Ip Iow Ir In Ik Iret Isk Ipub]. constructor; simpl; auto. Qed.

Lemma alloc_old (fs : list reauthFuture) f x :
  fs !! f = Some x -> ((fs ++ [newReauthFuture])%list) !! f = Some x.
Proof. apply lookup_app_l_Some. Qed.

Lemma alloc_done (fs : list reauthFuture) f fut :
  ((fs ++ [newReauthFuture])%list) !! f = Some fut -> done fut = true -> fs !! f = Some fut.
Proof.
  intros Hl Hd. apply lookup_app_Some in Hl as [Hl|[_ Hl]]; [exact Hl|].
  apply list_lookup_singleton_Some in Hl as [_ <-]. discriminate.
Qed.

Lemma alloc_Inv t prev s :
  resting (at_ (goroutines s t)) = true ->
  Inv s ->
  Inv (move t (Entered prev (length (futures s)))
         (set_futures (futures s ++ [newReauthFuture]) s)).
Proof.
  intros Hrest [Im Is Io Ie Ip Iow Ir In Ik Iret Isk Ipub].
  assert (forall t' p f, at_ (goroutines s t') = Entered p f -> f < length (futures s)) as Hlt.
  { intros t' p f Hat. apply Ie in Hat as [Hat _]. eapply lookup_lt_Some, Hat. }
  constructor; simpl; auto; intros; lookups; eauto; try done;
    try match goal with
        | Hat : at_ (goroutines s _) = Entered _ (length (futures s)) |- _ =>
            apply Hlt in Hat; lia
        end.
  - destruct (Io _ H) as (fut & Hf & Hd). eauto using alloc_old.
  - split; [apply list_lookup_middle; reflexivity|]. split.
    + intros Ho. destruct (Io _ Ho) as (fut & Hf & _). apply lookup_lt_Some in Hf. lia.
    + intros Hin. apply Ik in Hin. lia.
  - destruct (Ie _ _ _ H) as (Hf & Ho & Hin). eauto using alloc_old.
  - rewrite length_app. apply Ik in H. simpl. lia.
  - destruct (Iret _ _ _ H) as (fut & Hf & Hd). eauto using alloc_old.
  - eauto using alloc_done.
Qed.

(** What the invariant says about the one goroutine in flight. *)
Lemma in_flight_facts s t f :
  Inv s -> in_flight (at_ (goroutines s t)) f ->
  ongoing s = Some f
  /\ f < length (futures s)
  /\ (exists fut, futures s !! f = Some fut /\ done fut = false)
  /\ (forall t' p f', at_ (goroutines s t') = Owner p f' -> t' = t)
  /\ (forall t' f', at_ (goroutines s t') = Running f' -> t' = t)
  /\ (forall t' f' e, at_ (goroutines s t') = Finishing f' e -> t' = t)
  /\ (forall t' p, at_ (goroutines s t') = Entered p f -> False)
  /\ (forall t' f', in_flight (at_ (goroutines s t')) f' -> t' = t).
Proof.
  intros [Im Is Io Ie Ip Iow Ir In Ik Iret Isk Ipub] Hfl.
  pose proof (Im _ _ Hfl) as Hon. destruct (Io _ Hon) as (fut & Hf & Hd).
  split; [done|]. split; [eapply lookup_lt_Some, Hf|]. split; [eauto|].
  split; [|split; [|split; [|split]]].
  - intros t' p f' Hat. apply (Is t' t f' f); [rewrite Hat; done|done].
  - intros t' f' Hat. apply (Is t' t f' f); [rewrite Hat; done|done].
  - intros t' f' e Hat. apply (Is t' t f' f); [rewrite Hat; done|done].
  - intros t' p Hat. apply Ie in Hat as (_ & Hne & _). done.
  - intros t' f' Hfl'. apply (Is t' t f' f); done.
Qed.

Ltac crush :=
  constructor; simpl; auto; intros; lookups; eauto; try done.

Ltac refold :=
  repeat match goal with
         | |- context [list_insert ?i ?x ?l] => change (list_insert i x l) with (<[i:=x]> l)
         | H : context [list_insert ?i ?x ?l] |- _ =>
             change (list_insert i x l) with (<[i:=x]> l) in H
         end.

Ltac absurd_flight :=
  match goal with
  | Hown : forall t' p f', at_ (goroutines ?s t') = Owner p f' -> t' = _,
    H : at_ (goroutines ?s _) = Owner _ _ |- _ => apply Hown in H; congruence
  | Hrun : forall t' f', at_ (goroutines ?s t') = Running f' -> t' = _,
    H : at_ (goroutines ?s _) = Running _ |- _ => apply Hrun in H; congruence
  | Hfin : forall t' f' e, at_ (goroutines ?s t') = Finishing f' e -> t' = _,
    H : at_ (goroutines ?s _) = Finishing _ _ |- _ => apply Hfin in H; congruence
  | Hone : forall t' f', in_flight (at_ (goroutines ?s t')) f' -> t' = _,
    H : in_flight (at_ (goroutines ?s _)) _ |- _ => apply Hone in H; congruence
  end.

Lemma step_Inv cfg a s s' : Inv s -> step cfg a s = Some s' -> Inv s'.
Proof.
  intros I Hstep. destruct a as [t prev|t|t|t st e|t|t|t|t|t|t]; simpl in Hstep.
  - (* CallReauthenticate *)
    destruct (resting (at_ (goroutines s t))) eqn:Hrest; [|done].
    destruct (negb (has_ReauthFunc cfg)); [|destruct (negb (has_reauthmut cfg))];
      simplify_eq/=; try (apply move_neutral; done).
    apply alloc_Inv; done.
  - (* Lock *)
    destruct (at_ (goroutines s t)) as [|prev f| | | | | | | | | |] eqn:Hat; try done.
    destruct (ongoing s) as [running|] eqn:Hon; simplify_eq/=.
    + apply move_neutral; done.
    + destruct I as [Im Is Io Ie Ip Iow Ir In Ik Iret Isk Ipub].
      pose proof (Ie _ _ _ Hat) as (Hnew & _ & Hnot).
      constructor; simpl; auto; intros; lookups; eauto; try done;
        try match goal with
            | Hfl : in_flight (at_ (goroutines s _)) _ |- _ => apply Im in Hfl; congruence
            end.
      all: naive_solver.
  - (* Decide *)
    destruct (at_ (goroutines s t)) as [| |prev f| | | | | | | | |] eqn:Hat; try done.
    assert (in_flight (at_ (goroutines s t)) f) as Hfl by (rewrite Hat; done).
    destruct (in_flight_facts _ _ _ I Hfl) as (Hon & Hlt & Hopen & Hown & Hrun & Hfin & Hent & Hone).
    destruct I as [Im Is Io Ie Ip Iow Ir In Ik Iret Isk Ipub].
    pose proof (Iow _ _ _ Hat) as Hnot.
    destruct (_ || _); simplify_eq/=.
    + crush; try absurd_flight.
      * destruct (Ie _ _ _ H) as (? & ? & ?). split; [done|]. split; [done|].
        intros [<-|?]; [congruence|done].
      * apply NoDup_cons. split; [intros ?%list_elem_of_In; done|done].
      * destruct H as [<-|?]; [done|auto].
    + crush.
  - (* ReauthFuncReturns *)
    destruct (at_ (goroutines s t)) as [| | |f| | | | | | | |] eqn:Hat; try done; simplify_eq/=.
    + assert (in_flight (at_ (goroutines s t)) f) as Hfl by (rewrite Hat; done).
      destruct (in_flight_facts _ _ _ I Hfl) as (Hon & Hlt & Hopen & Hown & Hrun & Hfin & Hent & Hone).
      destruct I as [Im Is Io Ie Ip Iow Ir In Ik Iret Isk Ipub].
      pose proof (Ir _ _ Hat) as Hin.
      crush; try absurd_flight.
    + apply move_neutral; [done|]. apply set_store_Inv. done.
  - (* Publish *)
    destruct (at_ (goroutines s t)) as [| | | |f e| | | | | | |] eqn:Hat; try done.
    assert (in_flight (at_ (goroutines s t)) f) as Hfl by (rewrite Hat; done).
    destruct (in_flight_facts _ _ _ I Hfl) as (Hon & Hlt & Hopen & Hown & Hrun & Hfin & Hent & Hone).
    rewrite Hon in Hstep. destruct Hopen as (fut & Hfut & Hopen).
    rewrite Hfut in Hstep. unfold reauthFuture_Set in Hstep. rewrite Hopen in Hstep.
    destruct I as [Im Is Io Ie Ip Iow Ir In Ik Iret Isk Ipub].
    simplify_eq/=. crush; try absurd_flight; refold.
    + destruct (Ie _ _ _ H) as (Hf0 & Hne & Hin). split; [|done].
      rewrite list_lookup_insert_ne; [done|congruence].
    + rewrite length_insert. auto.
    + eexists. split; [apply list_lookup_insert_eq; done|done].
    + destruct (Iret _ _ _ H) as (fut0 & Hf0 & Hd0 & He0).
      exists fut0. split; [|done]. rewrite list_lookup_insert_ne; [done|congruence].
    + destruct (decide (f = f0)) as [<-|Hne].
      * rewrite list_lookup_insert_eq in H by done. simplify_eq/=. eauto.
      * rewrite list_lookup_insert_ne in H by done. eauto.
  - (* Receive *)
    destruct (at_ (goroutines s t)) as [| | | | |g| | | |g| |] eqn:Hat; try done.
    + destruct (futures s !! g) as [fut|] eqn:Hfut; [|done].
      unfold reauthFuture_Get in Hstep. destruct (done fut) eqn:Hd; [|done].
      destruct I as [Im Is Io Ie Ip Iow Ir In Ik Iret Isk Ipub].
      simplify_eq/=. crush.
    + destruct (futures s !! g) as [fut|] eqn:Hfut; [|done].
      destruct (reauthFuture_Get fut); [|done]. simplify_eq/=.
      apply move_neutral; done.
  - (* CallAuthenticatedHeaders *)
    destruct (resting (at_ (goroutines s t))); [|done].
    destruct (is_throwaway cfg); [|destruct (has_reauthmut cfg)];
      simplify_eq/=; apply move_neutral; done.
  - (* Observe *)
    destruct (at_ (goroutines s t)); try done.
    destruct (ongoing s); simplify_eq/=; apply move_neutral; done.
  - (* ReadToken *)
    destruct (at_ (goroutines s t)); try done.
    simplify_eq/=; apply move_neutral; done.
  - simplify_eq. apply cancel_Inv. done.
Qed.

Lemma run_Inv cfg acts s s' : Inv s -> run cfg acts s = Some s' -> Inv s'.
Proof.
  revert s. induction acts as [|a acts IH]; intros s I Hrun; simpl in Hrun.
  - congruence.
  - destruct (step cfg a s) as [s1|] eqn:Hstep; [|done]. eauto using step_Inv.
Qed.

Lemma reachable_Inv cfg st acts s : run cfg acts (init st) = Some s -> Inv s.
Proof. apply run_Inv, init_Inv. Qed.





(** C7.  The goroutine that installed the marker calls [ReauthFunc] exactly
    when the previous token is empty or equal to the client's current token.
    Otherwise it skips the call: it publishes a nil error, returns nil, lets
    every goroutine waiting on its future return nil, and leaves the token
    store as it was.  In every reachable state a result that comes from an
    attempt under which [ReauthFunc] was not called is nil. *)
Theorem owner_reauthenticates_iff_token_current cfg st acts s t previousToken f :
  run cfg acts (init st) = Some s ->
  at_ (goroutines s t) = Owner previousToken f ->
  let current := String.eqb previousToken "" || String.eqb (TokenID (store s)) previousToken in
  (current = true <-> previousToken = "" \/ TokenID (store s) = previousToken)
  /\ (exists s1,
        step cfg (Decide t) s = Some s1 /\ store s1 = store s
        /\ if current
           then at_ (goroutines s1 t) = Running f /\ invocations s1 = f :: invocations s
           else at_ (goroutines s1 t) = Finishing f None /\ invocations s1 = invocations s
                /\ exists s2,
                    step cfg (Publish t) s1 = Some s2 /\ store s2 = store s
                    /\ at_ (goroutines s2 t) = Returned (Some f) None
                    /\ futures s2 !! f = Some {| done := true; err := None |}
                    /\ ongoing s2 = None
                    /\ forall t', at_ (goroutines s2 t') = Waiting f ->
                         exists s3, step cfg (Receive t') s2 = Some s3 /\ store s3 = store s
                                    /\ at_ (goroutines s3 t') = Returned (Some f) None)
  /\ (forall t' f' e, at_ (goroutines s t') = Returned (Some f') e ->
        ~ In f' (invocations s) -> e = None).
Proof.
  intros Hrun Hat current. pose proof (reachable_Inv _ _ _ _ Hrun) as I.
  split; [|split].
  - unfold current. rewrite orb_true_iff, !String.eqb_eq. reflexivity.
  - simpl. rewrite Hat. fold current. destruct current.
    + eexists. split; [reflexivity|]. simpl. rewrite fn_lookup_insert. auto.
    + assert (in_flight (at_ (goroutines s t)) f) as Hfl by (rewrite Hat; done).
      destruct (in_flight_facts _ _ _ I Hfl) as (Hon & Hlt & (fut & Hfut & Hopen) & _).
      eexists. split; [reflexivity|]. simpl. rewrite fn_lookup_insert. simpl.
      split; [done|]. split; [done|]. split; [done|].
      rewrite Hon, Hfut. unfold reauthFuture_Set. rewrite Hopen.
      eexists. split; [reflexivity|]. simpl. rewrite fn_lookup_insert. simpl.
      split; [done|]. split; [done|].
      split; [apply list_lookup_insert_eq; done|]. split; [done|].
      intros t' Hw. rewrite Hw. rewrite list_lookup_insert_eq by done. simpl.
      eexists. split; [reflexivity|]. simpl. rewrite fn_lookup_insert. done.
  - intros t' f' e Hret Hnot.
    destruct (inv_returned s I _ _ _ Hret) as (fut & Hf & Hd & <-).
    eapply (inv_published s I); eauto.
Qed.

(** C8 (as the code has it).  A goroutine waiting on a future, in
    [Reauthenticate] or in [AuthenticatedHeaders], leaves its wait only by
    receiving from the future, which needs the future to be closed; once it
    is closed the receive is possible, and the waiter in [Reauthenticate]
    returns the stored error.  Canceling the context of the call leaves the
    goroutine where it is. *)
Theorem waiter_waits_for_completion cfg s t g :
  waits_on (at_ (goroutines s t)) g ->
  (forall a s', step cfg a s = Some s' ->
                at_ (goroutines s' t) <> at_ (goroutines s t) ->
                a = Receive t /\ exists fut, futures s !! g = Some fut /\ done fut = true)
  /\ (forall fut, futures s !! g = Some fut -> done fut = true ->
        exists s', step cfg (Receive t) s = Some s'
                   /\ at_ (goroutines s' t)
                      = match at_ (goroutines s t) with
                        | Waiting _ => Returned (Some g) (err fut)
                        | _ => HeadersReading
                        end)
  /\ (exists s', step cfg (Cancel t) s = Some s'
                 /\ ctx_canceled (goroutines s' t) = true
                 /\ at_ (goroutines s' t) = at_ (goroutines s t)).
Proof.
  intros Hw. split; [|split].
  - intros a s' Hstep Hmoved.
    assert (forall t0 p c, t0 <> t ->
              at_ ((<[t0 := {| at_ := p; ctx_canceled := c |}]> (goroutines s)) t)
              = at_ (goroutines s t)) as Hother.
    { intros t0 p c Hne. rewrite fn_lookup_insert_ne by done. done. }
    destruct a as [t0 prev|t0|t0|t0 st0 e|t0|t0|t0|t0|t0|t0];
      (destruct (decide (t0 = t)) as [->|Hne];
       [ destruct (at_ (goroutines s t)) eqn:Hat; simpl in Hw; try done; subst;
         simpl in Hstep; rewrite ?Hat in Hstep; simpl in Hstep; try done
       | exfalso; apply Hmoved; simpl in Hstep; repeat case_match; simplify_eq/=;
         apply Hother; done ]).
    all: try (exfalso; apply Hmoved; simplify_eq/=; rewrite fn_lookup_insert; done).
    all: split; [done|]; destruct (futures s !! g) as [fut|]; [|done];
      unfold reauthFuture_Get in Hstep; destruct (done fut) eqn:Hd; [|done]; eauto.
  - intros fut Hfut Hd.
    destruct (at_ (goroutines s t)) eqn:Hat; try done; simpl in Hw; subst; simpl;
      rewrite Hat, Hfut; unfold reauthFuture_Get; rewrite Hd;
      eexists; (split; [reflexivity|]); simpl; rewrite fn_lookup_insert; done.
  - eexists. split; [reflexivity|]. simpl. rewrite fn_lookup_insert. done.
Qed.

End CoordinatorFacts.

(** ** The properties at work on concrete clients *)

Module ScenarioFacts.
Import Executor Scenario ExecutorFacts CoordinatorFacts.
#[local] Existing Instance scripted.

(** A value is its parts put together again. *)
Lemma exchanged_eta m x r :
  exchanged_reply x = inr r ->
  x = Exchanged (exchanged_token x) (inr r) (exchanged_mem m x).
Proof. destruct x; simpl; intros Hr; try discriminate. rewrite Hr. reflexivity. Qed.

Lemma blocking_eta {A : Type} (b : Blocking A) (a : A) :
  blocking_value b = Some a -> b = Got a (blocking_mem b).
Proof. destruct b; simpl; intros [= <-]; reflexivity. Qed.

Lemma returned_eta o r : returned o = Some r -> o = Returned r (final o).
Proof. destruct o; simpl; intros [= <-]; reflexivity. Qed.

Lemma again_eta n : asks_again n = true -> n = Again (next_mem n).
Proof. destruct n; simpl; intros Ha; try discriminate. reflexivity. Qed.

Lemma pair_eta {A B : Type} (p : A * B) (a : A) : fst p = a -> p = (a, snd p).
Proof. destruct p; simpl; intros <-; reflexivity. Qed.

Lemma runs_eta cfg acts st :
  runs cfg acts st = true ->
  Coordinator.run cfg acts (Coordinator.init st) = Some (reached cfg acts st).
Proof.
  unfold runs, reached. destruct (Coordinator.run cfg acts (Coordinator.init st)); [done|].
  discriminate.
Qed.

Lemma SetTokenAndAuthResult_atomic_witness :
  SetTokenAndAuthResult (Some {| ExtractTokenID := ("", Some (ForeignError "no token")) |})
    stale_store
  = (stale_store, Some (ForeignError "no token"))
  /\ SetTokenAndAuthResult (Some {| ExtractTokenID := ("fresh", None) |}) stale_store
     = ({| TokenID := "fresh"; authResult := Some {| ExtractTokenID := ("fresh", None) |} |},
        None).
Proof.
  split.
  - apply (proj1 (SetTokenAndAuthResult_atomic stale_store
                    {| ExtractTokenID := ("", Some (ForeignError "no token")) |})).
    reflexivity.
  - apply (proj1 (proj2 (SetTokenAndAuthResult_atomic stale_store
                           {| ExtractTokenID := ("fresh", None) |}))).
    reflexivity.
Defined.

(** A stale token, a 401, a reauthentication that succeeds, then a 500: the
    error handed back holds the 500 and not the 401. *)
Lemma original_401_dropped_after_reauthentication :
  let r := ErrErrorAfterReauthentication
             (UnexpectedResponseCode
                {| URL := url; Method := "GET"; Expected := [200%Z]; Actual := 500;
                   Body := "oops"; ResponseHeader := ∅ |}) in
  returned (doRequest 2 plain_client "GET" url plain (expired_then 500 "oops"))
  = Some (None, Some r)
  /\ reauths (final (doRequest 2 plain_client "GET" url plain (expired_then 500 "oops"))) = 1
  /\ ~ In (UnexpectedResponseCode
             {| URL := url; Method := "GET"; Expected := [200%Z]; Actual := 401;
                Body := "expired"; ResponseHeader := ∅ |}) (causes r).
Proof.
  split; [vm_compute; reflexivity|]. split; [vm_compute; reflexivity|].
  simpl. intros [H|[H|[]]]; congruence.
Qed.

Lemma error_after_reauthentication_witness :
  let m0 := expired_then 500 "oops" in
  let x := exchange plain_client "GET" url plain m0 in
  let m2 := blocking_mem (Reauthenticate plain_client (exchanged_token x) (exchanged_mem m0 x)) in
  let m3 := snd (rewind plain m2) in
  let m4 := set_state {| hasReauthenticated := true; retries := retries (state m3) |} m3 in
  let e := UnexpectedResponseCode
             {| URL := url; Method := "GET"; Expected := [200%Z]; Actual := 500;
                Body := "oops"; ResponseHeader := ∅ |} in
  doRequest 2 plain_client "GET" url plain m0
  = Returned (None, Some (ErrErrorAfterReauthentication e))
      (final (doRequest 1 plain_client "GET" url plain m4))
  /\ forall x, In x (causes (ErrErrorAfterReauthentication e))
               <-> x = ErrErrorAfterReauthentication e \/ In x (causes e).
Proof.
  intros m0 x m2 m3 m4 e.
  apply (error_after_reauthentication_wraps_retry 1 plain_client "GET" url plain m0
           (exchanged_token x) (reply 401 "expired") (exchanged_mem m0 x) m2 m3
           (Some (reply 500 "oops")) e).
  - apply exchanged_eta. vm_compute; reflexivity.
  - reflexivity.
  - vm_compute; reflexivity.
  - discriminate.
  - reflexivity.
  - subst m2. apply blocking_eta. vm_compute; reflexivity.
  - subst m3. apply pair_eta. vm_compute; reflexivity.
  - apply returned_eta. vm_compute; reflexivity.
Defined.

(** A ceiling of 2 and three rate-limit responses in a row: two backoff
    calls, and the third response comes back as the error. *)
Lemma backoff_calls_bounded_witness :
  let client := backoff_client 2 in
  let m1 := next_mem (attempt client "GET" url plain throttled) in
  let m2 := next_mem (attempt client "GET" url plain m1) in
  let x := exchange client "GET" url plain m2 in
  backoffs (final (Request 9 client "GET" url plain throttled))
  <= backoffs throttled + N.to_nat (maxTries client)
  /\ backoffs (exchanged_mem m2 x) = backoffs m2
  /\ doRequest 1 client "GET" url plain m2
     = Returned (Some (reply 429 "c"),
                 Some (UnexpectedResponseCode (respErr_of "GET" url plain (reply 429 "c"))))
         (exchanged_mem m2 x).
Proof.
  intros client m1 m2 x.
  destruct (backoff_calls_bounded client "GET" url plain (fun _ _ _ => proceed))
    as (_ & Hbound & Hlast & _).
  - reflexivity.
  - reflexivity.
  - vm_compute; reflexivity.
  - split; [apply Hbound|].
    destruct (Hlast throttled m2 (exchanged_token x) (reply 429 "c") (exchanged_mem m2 x))
      as [Hsame Hret].
    + apply passes_Again with (m1 := m1); [subst m1; apply again_eta; vm_compute; reflexivity|].
      apply passes_Again with (m1 := m2); [subst m2; apply again_eta; vm_compute; reflexivity|].
      apply passes_here.
    + vm_compute; reflexivity.
    + apply exchanged_eta. vm_compute; reflexivity.
    + reflexivity.
    + vm_compute; reflexivity.
    + split; [exact Hsame|apply Hret].
Defined.

(** A stream that cannot seek is sent again after the reauthentication, as
    far as it has been read: the retry goes out with an empty body and the
    call succeeds. *)
Lemma unseekable_stream_resent_after_401 :
  returned (Request 3 plain_client "PUT" url (with_stream unseekable)
              (boot [inr (reply 401 "expired"); inr (reply 201 "")] "stale"))
  = Some (Some (reply 201 ""), None)
  /\ map ReqBody
       (sent (log (final (Request 3 plain_client "PUT" url (with_stream unseekable)
                            (boot [inr (reply 401 "expired"); inr (reply 201 "")] "stale")))))
     = ["payload"; ""].
Proof. split; vm_compute; reflexivity. Qed.

(** After a backoff the stream is not rewound, seekable or not. *)
Lemma seekable_stream_not_rewound_after_backoff :
  returned (Request 3 (backoff_client 2) "PUT" url (with_stream seekable)
              (boot [inr (reply 429 "slow down"); inr (reply 201 "")] "tok"))
  = Some (Some (reply 201 ""), None)
  /\ map ReqBody
       (sent (log (final (Request 3 (backoff_client 2) "PUT" url (with_stream seekable)
                            (boot [inr (reply 429 "slow down"); inr (reply 201 "")] "tok")))))
     = ["payload"; ""].
Proof. split; vm_compute; reflexivity. Qed.

(** After a generic retry the stream is not rewound either. *)
Lemma seekable_stream_not_rewound_after_retry :
  map ReqBody
    (sent (log (final (Request 3 retrying_client "PUT" url (with_stream seekable)
                         (boot [inr (reply 500 "oops"); inr (reply 201 "")] "tok")))))
  = ["payload"; ""].
Proof. vm_compute; reflexivity. Qed.

Lemma rewinds_after_reauthentication_witness :
  let options := with_stream seekable in
  let m0 := fresh (boot [inr (reply 401 "expired"); inr (reply 201 "")] "stale") in
  let x := exchange plain_client "PUT" url options m0 in
  let m2 := blocking_mem (Reauthenticate plain_client (exchanged_token x) (exchanged_mem m0 x)) in
  let m3 := set_state {| hasReauthenticated := true; retries := retries (state m2) |}
              (set_offset 0 (emit EvSeek m2)) in
  attempt plain_client "PUT" url options m0 = AgainAfterReauth m3
  /\ offset m3 = 0
  /\ map ReqBody (sent (log (final (doRequest 2 plain_client "PUT" url options m0))))
     = ["payload"; "payload"].
Proof.
  intros options m0 x m2 m3.
  assert (x = Exchanged (exchanged_token x) (inr (reply 401 "expired")) (exchanged_mem m0 x))
    as Hx by (apply exchanged_eta; vm_compute; reflexivity).
  assert (Reauthenticate plain_client (exchanged_token x) (exchanged_mem m0 x) = Got None m2)
    as Hre by (subst m2; apply blocking_eta; vm_compute; reflexivity).
  assert (accepts (accepted_codes "PUT" options) (reply 401 "expired") = false)
    as Hacc by (vm_compute; reflexivity).
  assert (ReauthFunc plain_client <> None) as Hne by discriminate.
  pose proof (rewinds_after_reauthentication plain_client "PUT" url options seekable m0
                (exchanged_token x) (reply 401 "expired") (exchanged_mem m0 x) m2
                eq_refl Hx eq_refl Hacc Hne eq_refl Hre) as Hw.
  hnf in Hw. destruct Hw as (Hatt & Hoff & _).
  split; [exact Hatt|]. split; [exact Hoff|]. vm_compute; reflexivity.
Defined.



(** Sixty transport failures retried by [RetryFunc], then the first 429:
    the counter has reached the default ceiling, the backoff function is not
    called, and the 429 goes to [RetryFunc]. *)
Lemma first_rate_limit_skips_backoff_after_sixty_retries :
  let script := (repeat (inl (ForeignError "reset")) 60
                 ++ [inr (reply 429 "slow down"); inr (reply 200 "")])%list in
  let o := Request 100 retrying_client "GET" url plain (boot script "tok") in
  MaxBackoffRetries retrying_client = 0%N
  /\ is_Some (RetryBackoffFunc retrying_client)
  /\ returned o = Some (Some (reply 200 ""), None)
  /\ retried_statuses (log (final o)) = [(429%Z, 61%N)]
  /\ backoffs (final o) = 0.
Proof.
  intros script o. split; [reflexivity|]. split; [eexists; reflexivity|].
  split; [vm_compute; reflexivity|]. split; vm_compute; reflexivity.
Qed.

Lemma backoff_runs_below_ceiling_witness :
  let client := backoff_client 0 in
  let x := exchange client "GET" url plain throttled in
  exists m',
    log m' = EvBackoff (respErr_of "GET" url plain (reply 429 "a"))
               (uint_succ (retries (state throttled))) :: log (exchanged_mem throttled x)
    /\ (attempt client "GET" url plain throttled = Again m'
        \/ exists e, attempt client "GET" url plain throttled
                     = Return (Some (reply 429 "a"), Some e) m').
Proof.
  intros client x.
  refine (proj2 (proj2 (proj2
            (backoff_runs_below_ceiling client "GET" url plain (fun _ _ _ => proceed) throttled
               (exchanged_token x) (reply 429 "a") (exchanged_mem throttled x) _ _ _ _))) _).
  - reflexivity.
  - apply exchanged_eta. vm_compute; reflexivity.
  - reflexivity.
  - vm_compute; reflexivity.
  - reflexivity.
Defined.


Lemma owner_reauthenticates_iff_token_current_witness :
  let s := reached locked latecomer stale_store in
  exists s1,
    Coordinator.step locked (Coordinator.Decide 0) s = Some s1
    /\ Coordinator.store s1 = Coordinator.store s
    /\ Coordinator.at_ (Coordinator.goroutines s1 0) = Coordinator.Finishing 0 None
    /\ Coordinator.invocations s1 = Coordinator.invocations s.
Proof.
  intros s.
  destruct (owner_reauthenticates_iff_token_current locked stale_store latecomer s 0 "older" 0)
    as (_ & (s1 & Hstep & Hstore & Hskip) & _).
  - apply runs_eta. vm_compute; reflexivity.
  - vm_compute; reflexivity.
  - exists s1. split; [exact Hstep|]. split; [exact Hstore|].
    exact (conj (proj1 Hskip) (proj1 (proj2 Hskip))).
Defined.

(** Goroutine 0 is still inside [ReauthFunc]; the two waiters have had
    their contexts canceled, and neither has a step it can take. *)
Lemma canceled_waiters_stay_blocked :
  let s := reached locked canceled_waiters stale_store in
  Coordinator.run locked canceled_waiters (Coordinator.init stale_store) = Some s
  /\ Coordinator.at_ (Coordinator.goroutines s 0) = Coordinator.Running 0
  /\ Coordinator.goroutines s 1
     = {| Coordinator.at_ := Coordinator.Waiting 0; Coordinator.ctx_canceled := true |}
  /\ Coordinator.goroutines s 2
     = {| Coordinator.at_ := Coordinator.HeadersWaiting 0; Coordinator.ctx_canceled := true |}
  /\ ~ exists a s',
         (Coordinator.actor a = Some 1 \/ Coordinator.actor a = Some 2)
         /\ Coordinator.step locked a s = Some s'.
Proof.
  intros s. split; [apply runs_eta; vm_compute; reflexivity|].
  split; [vm_compute; reflexivity|].
  split; [vm_compute; reflexivity|]. split; [vm_compute; reflexivity|].
  intros (a & s' & Hact & Hstep).
  destruct a; simpl in Hact; destruct Hact as [Hact|Hact]; try discriminate;
    injection Hact as ->; vm_compute in Hstep; discriminate.
Qed.

Lemma waiter_waits_for_completion_witness :
  let s := reached locked canceled_waiters stale_store in
  exists s',
    Coordinator.step locked (Coordinator.Cancel 1) s = Some s'
    /\ Coordinator.ctx_canceled (Coordinator.goroutines s' 1) = true
    /\ Coordinator.at_ (Coordinator.goroutines s' 1) = Coordinator.at_ (Coordinator.goroutines s 1).
Proof.
  intros s.
  refine (proj2 (proj2 (waiter_waits_for_completion locked s 1 0 _))).
  vm_compute; reflexivity.
Defined.

End ScenarioFacts.

(** ** More on the token store *)

(** X14.  Token and result stay together.  Every writer of the token store
    leaves it consistent: [SetToken] drops the cached result,
    [SetTokenAndAuthResult] installs a result together with the token
    extracted from it or changes nothing, and [CopyTokenFrom] copies both
    fields.  So a cached result is always the one its token came from. *)
Theorem writers_keep_store_consistent (c other : TokenStore) (t : string)
  (r : option AuthResult) :
  consistent (SetToken t c)
  /\ (consistent c -> consistent (fst (SetTokenAndAuthResult r c)))
  /\ (consistent other -> consistent (CopyTokenFrom other c))
  /\ (snd (SetTokenAndAuthResult r c) = None ->
      consistent (fst (SetTokenAndAuthResult r c))
      /\ GetAuthResult (fst (SetTokenAndAuthResult r c)) = r).
Proof.
  unfold consistent, SetToken, CopyTokenFrom, SetTokenAndAuthResult, GetAuthResult.
  split; [simpl; discriminate|]. split; [|split].
  - intros Hc. destruct r as [a|]; [|simpl; discriminate].
    destruct (ExtractTokenID a) as [tok [e|]] eqn:Hx; simpl; [exact Hc|].
    intros a' [= <-]. exact Hx.
  - intros Hc. simpl. exact Hc.
  - destruct r as [a|]; [|simpl; split; [discriminate|reflexivity]].
    destruct (ExtractTokenID a) as [tok [e|]] eqn:Hx; simpl; [discriminate|].
    intros _. split; [|reflexivity]. intros a' [= <-]. exact Hx.
Qed.

(** ** More on the request executor *)

Module ExecutorMore.
Import Executor ExecutorFacts.

Section Facts.
Context `{Platform}.

(** X1.  Both kinds of body: the call is refused before anything is sent. *)
Theorem both_bodies_refused fuel client method url options m v r :
  JSONBody options = Some v ->
  RawBody options = Some r ->
  doRequest (S fuel) client method url options m
  = Returned (None,
              Some (errorString
                      "please provide only one of JSONBody or RawBody to gophercloud.Request()"))
      m.
Proof.
  intros Hj Hr. simpl. unfold attempt, exchange, prepare. rewrite Hj, Hr. reflexivity.
Qed.

(** X2.  [KeepResponseBody] together with a JSON target: refused before
    anything is sent. *)
Theorem KeepResponseBody_with_JSONResponse_refused fuel client method url options m :
  KeepResponseBody options = true ->
  JSONResponse options = true ->
  exists e,
    doRequest (S fuel) client method url options m = Returned (None, Some e) m
    /\ (JSONBody options = None ->
        e = errorString "cannot use KeepResponseBody when JSONResponse is not nil").
Proof.
  intros Hk Hj. simpl. unfold attempt, exchange, prepare. rewrite Hk, Hj. simpl.
  destruct (JSONBody options) as [v|].
  - destruct (RawBody options); [eexists; split; [reflexivity|discriminate]|].
    destruct (json_Marshal v); eexists; (split; [reflexivity|discriminate]).
  - eexists. split; reflexivity.
Qed.

Lemma exchange_sends client method url options m tok r m1 :
  exchange client method url options m = Exchanged tok r m1 -> sends m1 = S (sends m).
Proof.
  intros Hx. apply exchange_Exchanged in Hx as (req & Hl & _).
  unfold sends, count. rewrite Hl. reflexivity.
Qed.

Lemma acceptable_unhooked client method url options resp m :
  RetryFunc client = None ->
  exists r, acceptable client method url options resp m = Return r m.
Proof.
  intros Hno. unfold acceptable, consult_RetryFunc. rewrite Hno.
  repeat case_match; eexists; reflexivity.
Qed.

(** A response that is not accepted and that no hook takes up. *)
Lemma unacceptable_surfaces client method url options okc tok resp m :
  RetryFunc client = None ->
  StatusCode resp <> 401%Z \/ ReauthFunc client = None \/ hasReauthenticated (state m) = true ->
  rate_limited resp = false \/ RetryBackoffFunc client = None
  \/ (maxTries client <= retries (state m))%N ->
  unacceptable client method url options okc tok resp m
  = Return (Some resp,
            Some (UnexpectedResponseCode
                    {| URL := url; Method := method; Expected := okc;
                       Actual := StatusCode resp; Body := RespBody resp;
                       ResponseHeader := RespHeader resp |})) m.
Proof.
  intros Hno Hre Hbo. unfold unacceptable, consult_RetryFunc. rewrite Hno.
  destruct (StatusCode resp =? 401)%Z eqn:H401.
  - apply Z.eqb_eq in H401.
    destruct Hre as [Hre|[Hre|Hre]]; [done| |].
    + rewrite Hre. rewrite bool_decide_eq_false_2 by (intros Hc; apply Hc; reflexivity).
      reflexivity.
    + rewrite Hre, andb_false_r. reflexivity.
  - fold (rate_limited resp). destruct (rate_limited resp) eqn:Hrl; [|reflexivity].
    destruct Hbo as [Hbo|[Hbo|Hbo]]; [done| |].
    + rewrite Hbo. reflexivity.
    + destruct (RetryBackoffFunc client); [|reflexivity].
      apply N.ltb_ge in Hbo. rewrite Hbo. reflexivity.
Qed.

(** X3.  Without hooks a call makes one pass.  With no [ReauthFunc], no
    [RetryBackoffFunc] and no [RetryFunc], [doRequest] never calls itself:
    it ends within its first pass, whatever the transport answers, and hands
    at most one request to the transport. *)
Theorem without_hooks_one_attempt fuel client method url options m :
  ReauthFunc client = None ->
  RetryBackoffFunc client = None ->
  RetryFunc client = None ->
  doRequest (S fuel) client method url options m = doRequest 1 client method url options m
  /\ (forall m', doRequest 1 client method url options m <> OutOfFuel m')
  /\ sends (final (doRequest 1 client method url options m)) <= S (sends m).
Proof.
  intros Hre Hbo Hno.
  assert (match attempt client method url options m with
          | Return _ m' | Wait m' => sends m' <= S (sends m)
          | _ => False
          end) as Hatt.
  { unfold attempt.
    destruct (exchange client method url options m) as [e|m1|tok [e|resp] m1] eqn:Hx.
    - lia.
    - apply exchange_Stalled in Hx as ->. lia.
    - apply exchange_sends in Hx. unfold consult_RetryFunc. rewrite Hno. lia.
    - apply exchange_sends in Hx. destruct (accepts _ resp).
      + destruct (acceptable_unhooked client method url options resp m1 Hno) as [r ->]. lia.
      + rewrite unacceptable_surfaces by auto. lia. }
  simpl. destruct (attempt client method url options m); simpl; try done.
Qed.

(** X4.  The error for an unexpected status.  When no hook takes the response
    up, the caller gets the response together with an
    [ErrUnexpectedResponseCode] that records the method, the URL, the codes
    that were accepted, the status, the body and the header of the
    response. *)
Theorem unexpected_status_reported fuel client method url options m tok resp m1 :
  exchange client method url options m = Exchanged tok (inr resp) m1 ->
  accepts (accepted_codes method options) resp = false ->
  RetryFunc client = None ->
  StatusCode resp <> 401%Z \/ ReauthFunc client = None \/ hasReauthenticated (state m) = true ->
  rate_limited resp = false \/ RetryBackoffFunc client = None
  \/ (maxTries client <= retries (state m))%N ->
  doRequest (S fuel) client method url options m
  = Returned (Some resp, Some (UnexpectedResponseCode (respErr_of method url options resp))) m1.
Proof.
  intros Hx Ha Hno Hre Hbo. simpl.
  rewrite (attempt_unaccepted _ _ _ _ _ _ _ _ Hx Ha).
  apply exchange_Exchanged in Hx as (_ & _ & Hs & _).
  rewrite unacceptable_surfaces; [reflexivity|done|rewrite Hs; done|rewrite Hs; done].
Qed.

Lemma Reauthenticate_sends client tok m :
  match Reauthenticate client tok m with
  | Got _ m' | Blocks m' => sends m' = sends m
  end.
Proof.
  unfold Reauthenticate, sends, count.
  destruct (ReauthFunc client) as [f|]; [|done].
  destruct (negb (reauthmut client)).
  - destruct (call _ _) as [e m'] eqn:Hc. apply call_eq in Hc as (Hl & _).
    rewrite Hl. done.
  - simpl. destruct (ongoing m) as [running|].
    + destruct (reauthFuture_Get running); done.
    + match goal with |- context [if ?b then _ else _] => destruct b end.
      * destruct (call _ _) as [e m'] eqn:Hc. apply call_eq in Hc as (Hl & _).
        simpl. rewrite Hl. done.
      * done.
Qed.

(** X5.  A reauthentication that fails.  When a 401 triggers a
    reauthentication that returns an error, the call ends at once with an
    [ErrUnableToReauthenticate] that holds both the error for the 401
    response and the error of the reauthentication; the request is not sent
    again. *)
Theorem failed_reauthentication_reports_both
  fuel client method url options m tok resp m1 e m2 :
  exchange client method url options m = Exchanged tok (inr resp) m1 ->
  StatusCode resp = 401%Z ->
  accepts (accepted_codes method options) resp = false ->
  ReauthFunc client <> None ->
  hasReauthenticated (state m) = false ->
  Reauthenticate client tok m1 = Got (Some e) m2 ->
  let original := UnexpectedResponseCode (respErr_of method url options resp) in
  doRequest (S fuel) client method url options m
  = Returned (None, Some (ErrUnableToReauthenticate original e)) m2
  /\ In original (causes (ErrUnableToReauthenticate original e))
  /\ In e (causes (ErrUnableToReauthenticate original e))
  /\ sends m2 = sends m1.
Proof.
  intros Hx Hs Ha Hf Hflag Hre original. split; [|split; [|split]].
  - simpl. rewrite (attempt_unaccepted _ _ _ _ _ _ _ _ Hx Ha).
    rewrite unacceptable_401; auto.
    + rewrite Hre. reflexivity.
    + apply exchange_Exchanged in Hx as (_ & _ & -> & _). exact Hflag.
  - simpl. right. left. reflexivity.
  - simpl. right. right. destruct e; left; reflexivity.
  - pose proof (Reauthenticate_sends client tok m1) as Hsend. rewrite Hre in Hsend. exact Hsend.
Qed.

(** *** The fail count *)

Lemma failCounts_cons_do req l : failCounts (EvDo req :: l) = failCounts l.
Proof. unfold failCounts. reflexivity. Qed.

Lemma failCounts_cons e l :
  failCounts (e :: l)
  = (failCounts l ++ match e with
                     | EvBackoff _ n | EvRetry _ n => [n]
                     | _ => []
                     end)%list.
Proof.
  unfold failCounts. simpl. destruct e; simpl; rewrite ?app_nil_r; reflexivity.
Qed.

Lemma uint_upto_S k :
  uint_upto (S k) = (uint_upto k ++ [(N.of_nat (S k) mod uint_modulus)%N])%list.
Proof. unfold uint_upto. rewrite seq_S, map_app. reflexivity. Qed.

Lemma uint_succ_mod k :
  uint_succ (N.of_nat k mod uint_modulus) = (N.of_nat (S k) mod uint_modulus)%N.
Proof.
  unfold uint_succ. rewrite N.Div0.add_mod_idemp_l. f_equal. lia.
Qed.

Lemma uint_upto_small k :
  (N.of_nat k < uint_modulus)%N -> uint_upto k = map N.of_nat (seq 1 k).
Proof.
  intros Hk. unfold uint_upto. rewrite <- seq_shift, map_map.
  apply map_ext_in. intros i Hi. apply in_seq in Hi. apply N.mod_small. lia.
Qed.

Lemma numbered_frame base m m' :
  failCounts (log m') = failCounts (log m) -> retries (state m') = retries (state m) ->
  numbered base m -> numbered base m'.
Proof. intros Hl Hs (k & Hk & Hr). exists k. rewrite Hl, Hs. auto. Qed.

Lemma numbered_hook base (f : Hook) ev m :
  (exists r, ev = EvBackoff r (retries (state (bump m))))
  \/ (exists x, ev = EvRetry x (retries (state (bump m)))) ->
  numbered base m -> numbered base (snd (call f (emit ev (bump m)))).
Proof.
  intros Hev (k & Hk & Hr).
  destruct (call f (emit ev (bump m))) as [e' m'] eqn:Hc.
  apply call_eq in Hc as (Hl & Hs & _). simpl.
  exists (S k). rewrite Hl, Hs. simpl. rewrite failCounts_cons, Hk, uint_upto_S.
  rewrite Hr, uint_succ_mod. rewrite <- app_assoc.
  destruct Hev as [[r ->]|[x ->]]; simpl in *; rewrite ?Hr, ?uint_succ_mod; auto.
Qed.

Lemma consult_RetryFunc_numbered base client method url options e a u m :
  numbered base m ->
  match consult_RetryFunc client method url options e a u m with
  | Return _ m' | Wait m' | Again m' | AgainAfterReauth m' => numbered base m'
  end.
Proof.
  intros Hn. unfold consult_RetryFunc. destruct (RetryFunc client) as [f|]; [|exact Hn].
  pose proof (numbered_hook base (f method url options e (retries (state (bump m))))
                (EvRetry e (retries (state (bump m)))) m
                (or_intror (ex_intro _ e eq_refl)) Hn) as Hh.
  destruct (call _ _) as [e' m']. simpl in Hh. destruct e'; exact Hh.
Qed.

Lemma Reauthenticate_failCounts client tok m :
  match Reauthenticate client tok m with
  | Got _ m' | Blocks m' =>
      failCounts (log m') = failCounts (log m) /\ retries (state m') = retries (state m)
  end.
Proof.
  unfold Reauthenticate.
  destruct (ReauthFunc client) as [f|]; [|done].
  destruct (negb (reauthmut client)).
  - destruct (call _ _) as [e m'] eqn:Hc. apply call_eq in Hc as (Hl & Hs & _).
    rewrite Hl, Hs. done.
  - simpl. destruct (ongoing m) as [running|].
    + destruct (reauthFuture_Get running); done.
    + match goal with |- context [if ?b then _ else _] => destruct b end.
      * destruct (call _ _) as [e m'] eqn:Hc. apply call_eq in Hc as (Hl & Hs & _).
        simpl. rewrite Hl, Hs. done.
      * done.
Qed.

Lemma rewind_failCounts options m e m' :
  rewind options m = (e, m') ->
  failCounts (log m') = failCounts (log m) /\ retries (state m') = retries (state m).
Proof. unfold rewind. repeat case_match; intros [= <- <-]; done. Qed.

Lemma attempt_numbered base client method url options m :
  numbered base m ->
  match attempt client method url options m with
  | Return _ m' | Wait m' | Again m' | AgainAfterReauth m' => numbered base m'
  end.
Proof.
  intros Hn. unfold attempt.
  destruct (exchange client method url options m) as [e|m1|tok [e|resp] m1] eqn:Hx.
  - exact Hn.
  - apply exchange_Stalled in Hx as ->. exact Hn.
  - apply exchange_Exchanged in Hx as (req & Hl & Hs & _).
    apply consult_RetryFunc_numbered.
    eapply numbered_frame; [| |exact Hn]; [rewrite Hl; apply failCounts_cons_do|by rewrite Hs].
  - apply exchange_Exchanged in Hx as (req & Hl & Hs & _).
    assert (numbered base m1) as Hn1.
    { eapply numbered_frame; [| |exact Hn]; [rewrite Hl; apply failCounts_cons_do|by rewrite Hs]. }
    clear Hn Hl Hs. destruct (accepts _ resp).
    + unfold acceptable.
      destruct (JSONResponse options).
      * destruct (StatusCode resp =? 204)%Z; [exact Hn1|].
        destruct (DecodeError resp); [|exact Hn1]. apply consult_RetryFunc_numbered, Hn1.
      * destruct (negb _); [|exact Hn1]. destruct (ReadError resp); exact Hn1.
    + unfold unacceptable.
      set (respErr := {| URL := url |}).
      pose proof (consult_RetryFunc_numbered base client method url options
                    (UnexpectedResponseCode respErr) (Some resp) (Some resp) m1 Hn1) as Hother.
      destruct (StatusCode resp =? 401)%Z.
      * destruct (bool_decide _ && _); [|exact Hother].
        pose proof (Reauthenticate_failCounts client tok m1) as Hre.
        destruct (Reauthenticate client tok m1) as [[e|] m2|m2]; destruct Hre as [Hl Hs];
          try (eapply numbered_frame; [exact Hl|exact Hs|exact Hn1]).
        destruct (rewind options m2) as [[e|] m3] eqn:Hw;
          apply rewind_failCounts in Hw as [Hl3 Hs3].
        -- eapply numbered_frame; [| |exact Hn1]; congruence.
        -- eapply numbered_frame; [| |exact Hn1]; simpl; congruence.
      * destruct (_ || _); [|exact Hother].
        destruct (RetryBackoffFunc client) as [f|]; [|exact Hother].
        destruct (retries (state m1) <? maxTries client)%N; [|exact Hother].
        pose proof (numbered_hook base (f respErr None (retries (state (bump m1))))
                      (EvBackoff respErr (retries (state (bump m1)))) m1
                      (or_introl (ex_intro _ respErr eq_refl)) Hn1) as Hh.
        destruct (call _ _) as [e' m']. simpl in Hh. destruct e'; exact Hh.
Qed.

Lemma doRequest_numbered base fuel client method url options m :
  numbered base m -> numbered base (final (doRequest fuel client method url options m)).
Proof.
  revert m. induction fuel as [|fuel IH]; intros m Hn; simpl; [exact Hn|].
  pose proof (attempt_numbered base client method url options m Hn) as Ha.
  destruct (attempt client method url options m) as [r m'|m'|m'|m']; simpl; auto.
  specialize (IH m' Ha).
  destruct (doRequest fuel client method url options m') as [[resp [e|]] m2|m2|m2]; exact IH.
Qed.

(** X6.  The fail count.  Within one call of [Request] the backoff function
    and [RetryFunc] share one counter: the k-th time either of them is
    consulted it is handed the count k (as a [uint] counts), starting at 1,
    whatever reauthentications happen in between. *)
Theorem failCount_numbers_hook_calls fuel client method url options m :
  exists k,
    failCounts (log (final (Request fuel client method url options m)))
    = (failCounts (log m) ++ uint_upto k)%list
    /\ ((N.of_nat k < uint_modulus)%N -> uint_upto k = map N.of_nat (seq 1 k)).
Proof.
  destruct (doRequest_numbered (failCounts (log m)) fuel client method url options (fresh m))
    as (k & Hk & _).
  - exists 0. simpl. rewrite app_nil_r. split; reflexivity.
  - exists k. split; [exact Hk|apply uint_upto_small].
Qed.

(** *** Waiting, tokens and headers *)

Lemma Reauthenticate_idle client tok m :
  ongoing m = None ->
  exists e m', Reauthenticate client tok m = Got e m' /\ ongoing m' = None.
Proof.
  intros Ho. unfold Reauthenticate.
  destruct (ReauthFunc client) as [f|]; [|eauto].
  destruct (negb (reauthmut client)).
  - destruct (call _ _) as [e m'] eqn:Hc. apply call_eq in Hc as (_ & _ & Hon & _).
    eexists _, _. split; [reflexivity|]. rewrite Hon. exact Ho.
  - simpl. rewrite Ho.
    match goal with |- context [if ?b then _ else _] => destruct b end.
    + destruct (call _ _) as [e m'] eqn:Hc. eauto.
    + eauto.
Qed.

Lemma consult_RetryFunc_idle client method url options e a u m :
  ongoing m = None ->
  match consult_RetryFunc client method url options e a u m with
  | Return _ m' | Again m' | AgainAfterReauth m' => ongoing m' = None
  | Wait _ => False
  end.
Proof.
  intros Ho. unfold consult_RetryFunc. destruct (RetryFunc client) as [f|]; [|exact Ho].
  destruct (call _ _) as [e' m'] eqn:Hc. apply call_eq in Hc as (_ & _ & Hon & _).
  destruct e'; rewrite Hon; exact Ho.
Qed.

Lemma attempt_idle client method url options m :
  ongoing m = None ->
  match attempt client method url options m with
  | Return _ m' | Again m' | AgainAfterReauth m' => ongoing m' = None
  | Wait _ => False
  end.
Proof.
  intros Ho. unfold attempt.
  destruct (exchange client method url options m) as [e|m1|tok [e|resp] m1] eqn:Hx.
  - exact Ho.
  - unfold exchange in Hx. destruct (prepare method url options) as [e|[body ct]]; [done|].
    unfold AuthenticatedHeaders in Hx. rewrite Ho in Hx.
    destruct (Throwaway client), (reauthmut client); simpl in Hx;
      destruct (transmit _ _ _ _); discriminate.
  - apply exchange_Exchanged in Hx as (_ & _ & _ & Hon).
    apply consult_RetryFunc_idle. congruence.
  - apply exchange_Exchanged in Hx as (_ & _ & _ & Hon).
    assert (ongoing m1 = None) as Ho1 by congruence. clear Ho Hon.
    destruct (accepts _ resp).
    + unfold acceptable.
      destruct (JSONResponse options).
      * destruct (StatusCode resp =? 204)%Z; [exact Ho1|].
        destruct (DecodeError resp); [|exact Ho1]. apply consult_RetryFunc_idle, Ho1.
      * destruct (negb _); [|exact Ho1]. destruct (ReadError resp); exact Ho1.
    + unfold unacceptable.
      set (respErr := {| URL := url |}).
      pose proof (consult_RetryFunc_idle client method url options
                    (UnexpectedResponseCode respErr) (Some resp) (Some resp) m1 Ho1) as Hother.
      destruct (StatusCode resp =? 401)%Z.
      * destruct (bool_decide _ && _); [|exact Hother].
        destruct (Reauthenticate_idle client tok m1 Ho1) as (e & m2 & -> & Ho2).
        destruct e; [exact Ho2|].
        unfold rewind. repeat case_match; simplify_eq/=; exact Ho2.
      * destruct (_ || _); [|exact Hother].
        destruct (RetryBackoffFunc client) as [f|]; [|exact Hother].
        destruct (retries (state m1) <? maxTries client)%N; [|exact Hother].
        destruct (call _ _) as [e' m'] eqn:Hc. apply call_eq in Hc as (_ & _ & Hon & _).
        destruct e'; rewrite Hon; exact Ho1.
Qed.

(** X7.  A goroutine on its own never waits.  When no reauthentication is in
    flight at the start, a call never ends up waiting on a future, however
    many times it reauthenticates or retries, and it leaves no marker
    behind. *)
Theorem never_blocks_alone fuel client method url options m :
  ongoing m = None ->
  (forall m', doRequest fuel client method url options m <> Blocked m')
  /\ ongoing (final (doRequest fuel client method url options m)) = None.
Proof.
  revert m. induction fuel as [|fuel IH]; intros m Ho; simpl; [done|].
  pose proof (attempt_idle client method url options m Ho) as Ha.
  destruct (attempt client method url options m) as [r m'|m'|m'|m']; simpl; try done.
  - apply IH, Ha.
  - destruct (IH m' Ha) as [Hnb Hon].
    destruct (doRequest fuel client method url options m') as [[resp [e|]] m2|m2|m2];
      simpl in *; split; try done.
Qed.

(** X8.  The token on the wire.  A client that is not a throwaway client and
    holds a token sends every request with that token as [X-Auth-Token],
    whatever [MoreHeaders] and [OmitHeaders] say, and this is the token it
    hands to [Reauthenticate] as the previous token. *)
Theorem request_carries_current_token client method url options m tok res m1 :
  Throwaway client = false ->
  Token (store (world m)) <> "" ->
  exchange client method url options m = Exchanged tok res m1 ->
  tok = Token (store (world m))
  /\ exists req,
      log m1 = EvDo req :: log m
      /\ ReqHeader req !! CanonicalMIMEHeaderKey "X-Auth-Token" = Some [Token (store (world m))].
Proof.
  intros Ht Htok. unfold exchange.
  destruct (prepare method url options) as [e|[body ct]]; [discriminate|].
  destruct (AuthenticatedHeaders client m) as [auth m0|m0] eqn:Ha; [|discriminate].
  destruct (AuthenticatedHeaders_Got _ _ _ _ Ha) as [-> Hauth].
  rewrite Ht in Hauth. simpl in Hauth.
  apply String.eqb_neq in Htok. rewrite Htok in Hauth. subst auth.
  unfold transmit.
  destruct (HTTPClient_Do client _ _) as [[env' consumed] r'].
  intros [= <- <- <-].
  assert (request_header client options ct [("X-Auth-Token", Token (store (world m)))]
            !! CanonicalMIMEHeaderKey "X-Auth-Token" = Some [Token (store (world m))]) as Hh.
  { unfold request_header, apply_auth. simpl. unfold Set_, Header_Set.
    apply lookup_insert_eq. }
  split.
  - unfold Get_, Header_Get. rewrite Hh. reflexivity.
  - eexists. split; [destruct body; reflexivity|]. exact Hh.
Qed.

(** X9.  Throwaway clients.  A throwaway client never waits on a
    reauthentication in flight and never attaches the token of its store:
    its requests carry the default headers, [MoreHeaders] and the removals
    only. *)
Theorem throwaway_neither_waits_nor_sends_token client method url options m :
  Throwaway client = true ->
  (forall m', exchange client method url options m <> Stalled m')
  /\ forall tok res m1,
      exchange client method url options m = Exchanged tok res m1 ->
      exists req contentType,
        log m1 = EvDo req :: log m
        /\ ReqHeader req
           = apply_OmitHeaders options
               (apply_MoreHeaders options (default_headers client contentType)).
Proof.
  intros Ht. unfold exchange, AuthenticatedHeaders. rewrite Ht.
  destruct (prepare method url options) as [e|[body ct]]; [split; discriminate|].
  unfold transmit.
  destruct (HTTPClient_Do client _ _) as [[env' consumed] r'].
  split; [discriminate|]. intros tok res m1 [= <- <- <-].
  eexists _, ct. split; [destruct body; reflexivity|reflexivity].
Qed.

(** X10.  No content.  An accepted 204 response is never decoded, even when a
    JSON target was given: the call returns the response with the error of
    draining the body, and [RetryFunc] is not consulted. *)
Theorem no_content_is_not_decoded fuel client method url options m tok resp m1 :
  exchange client method url options m = Exchanged tok (inr resp) m1 ->
  accepts (accepted_codes method options) resp = true ->
  JSONResponse options = true ->
  StatusCode resp = 204%Z ->
  doRequest (S fuel) client method url options m = Returned (Some resp, ReadError resp) m1.
Proof.
  intros Hx Ha Hj Hs. simpl. unfold attempt. rewrite Hx. simpl. rewrite Ha.
  unfold acceptable. rewrite Hj, Hs. reflexivity.
Qed.

(** X11.  Accepted statuses.  A status listed in [OkCodes] is a success even
    when it is 401, 429 or 498: without a JSON target the call returns after
    its first request, with no reauthentication, backoff or retry; the
    response is dropped only when draining its body fails. *)
Theorem accepted_status_needs_no_hook fuel client method url options m tok resp m1 :
  exchange client method url options m = Exchanged tok (inr resp) m1 ->
  accepts (accepted_codes method options) resp = true ->
  JSONResponse options = false ->
  doRequest (S fuel) client method url options m
  = Returned (if KeepResponseBody options then (Some resp, None)
              else match ReadError resp with
                   | Some e => (None, Some e)
                   | None => (Some resp, None)
                   end) m1
  /\ exists req, log m1 = EvDo req :: log m.
Proof.
  intros Hx Ha Hj. split.
  - simpl. unfold attempt. rewrite Hx. simpl. rewrite Ha.
    unfold acceptable. rewrite Hj.
    destruct (KeepResponseBody options); simpl; [reflexivity|].
    destruct (ReadError resp); reflexivity.
  - apply exchange_Exchanged in Hx as (req & Hl & _). eauto.
Qed.

(** X12.  The default codes.  When [OkCodes] is nil a response is accepted
    only for one of the six known methods and only with status 200, 201,
    202 or 204: any other method accepts nothing, and 401, 429 and 498 are
    never accepted. *)
Theorem default_codes_accept_success_only method options resp :
  OkCodes options = None ->
  accepts (accepted_codes method options) resp = true ->
  In method ["GET"; "HEAD"; "POST"; "PUT"; "PATCH"; "DELETE"]
  /\ In (StatusCode resp) [200%Z; 201%Z; 202%Z; 204%Z]
  /\ rate_limited resp = false /\ StatusCode resp <> 401%Z.
Proof.
  intros Hok Ha. unfold accepted_codes in Ha. rewrite Hok in Ha.
  unfold accepts in Ha. apply existsb_exists in Ha as (c & Hin & Hc).
  apply Z.eqb_eq in Hc. subst c.
  assert (In method ["GET"; "HEAD"; "POST"; "PUT"; "PATCH"; "DELETE"]
          /\ In (StatusCode resp) [200%Z; 201%Z; 202%Z; 204%Z]) as [Hm Hs].
  { unfold defaultOkCodes in Hin.
    destruct (String.eqb method "GET") eqn:E1;
      [apply String.eqb_eq in E1; simpl in *; intuition|].
    destruct (String.eqb method "HEAD") eqn:E2;
      [apply String.eqb_eq in E2; simpl in *; intuition|].
    destruct (String.eqb method "POST") eqn:E3;
      [apply String.eqb_eq in E3; simpl in *; intuition|].
    destruct (String.eqb method "PUT") eqn:E4;
      [apply String.eqb_eq in E4; simpl in *; intuition|].
    destruct (String.eqb method "PATCH") eqn:E5;
      [apply String.eqb_eq in E5; simpl in *; intuition|].
    destruct (String.eqb method "DELETE") eqn:E6;
      [apply String.eqb_eq in E6; simpl in *; intuition|].
    simpl in Hin. destruct Hin. }
  split; [exact Hm|]. split; [exact Hs|].
  unfold rate_limited. simpl in Hs.
  destruct Hs as [<-|[<-|[<-|[<-|[]]]]]; split; (reflexivity || discriminate).
Qed.

(** X13.  The user agent.  [Join] puts the prepended strings, the latest
    first, before the default user agent, separated by single spaces. *)
Theorem Join_Prepend (s : string) (ss prepend : list string) :
  Join (Prepend (s :: ss) prepend) = s ++ " " ++ Join (Prepend ss prepend)
  /\ Join (Prepend [] prepend) = Join prepend
  /\ Join [] = DefaultUserAgent.
Proof.
  split; [|split; reflexivity].
  unfold Join, Prepend. simpl.
  destruct ((ss ++ prepend) ++ [DefaultUserAgent])%list eqn:Hl; [|reflexivity].
  destruct (ss ++ prepend)%list; discriminate.
Qed.

(** *** Transport errors *)

(** X15.  Transport errors.  An error of the transport is returned as it is
    when there is no [RetryFunc]; otherwise [RetryFunc] decides: its error
    replaces the transport error, and a nil answer sends the request
    again. *)
Theorem transport_error_goes_to_RetryFunc fuel client method url options m tok e m1 :
  exchange client method url options m = Exchanged tok (inl e) m1 ->
  match RetryFunc client with
  | None => doRequest (S fuel) client method url options m = Returned (None, Some e) m1
  | Some f =>
      let n := uint_succ (retries (state m)) in
      let m2 := set_world (fst (f method url options e n (world m1)))
                  (emit (EvRetry e n) (bump m1)) in
      match snd (f method url options e n (world m1)) with
      | Some e' => doRequest (S fuel) client method url options m = Returned (None, Some e') m2
      | None => doRequest (S fuel) client method url options m
                = doRequest fuel client method url options m2
      end
  end.
Proof.
  intros Hx. pose proof (exchange_Exchanged _ _ _ _ _ _ _ _ Hx) as (_ & _ & Hs & _).
  simpl. unfold attempt. rewrite Hx. unfold consult_RetryFunc.
  destruct (RetryFunc client) as [f|]; [|reflexivity].
  unfold call. simpl. rewrite Hs.
  destruct (f method url options e (uint_succ (retries (state m))) (world m1)) as [w [e'|]];
    simpl; unfold bump; rewrite Hs; reflexivity.
Qed.

(** *** What every request of a call has in common *)










(** *** Headers that the caller overrides *)

Lemma overriding_Some (l : list (string * string)) (c v : string) :
  exists v', overriding c l (Some v) = Some v'.
Proof.
  revert v. induction l as [|[k w] l IH]; intros v; unfold overriding in *; simpl; [eauto|].
  destruct (String.eqb _ c); apply IH.
Qed.

Lemma overriding_lookup (l : list (string * string)) (h : Header) (c : string)
  (start : option string) :
  h !! c = (fun v => [v]) <$> start \/ start = None ->
  foldl (fun h kv => Set_ (fst kv) (snd kv) h) h l !! c
  = match overriding c l start with
    | Some v => Some [v]
    | None => h !! c
    end.
Proof.
  revert h start. induction l as [|[k v] l IH]; intros h start Hstart; simpl.
  - unfold overriding. simpl. destruct start as [v|]; [|reflexivity].
    destruct Hstart as [Hs|Hs]; [exact Hs|discriminate].
  - unfold overriding in *. simpl.
    destruct (String.eqb (CanonicalMIMEHeaderKey k) c) eqn:Hk.
    + apply String.eqb_eq in Hk. subst c.
      rewrite (IH _ (Some v)).
      * destruct (overriding_Some l (CanonicalMIMEHeaderKey k) v) as [v' Hv'].
        unfold overriding in Hv'. rewrite Hv'. reflexivity.
      * left. unfold Set_, Header_Set. rewrite lookup_insert_eq. reflexivity.
    + apply String.eqb_neq in Hk.
      rewrite (IH _ start).
      * unfold Set_, Header_Set. rewrite lookup_insert_ne by done. reflexivity.
      * unfold Set_, Header_Set. rewrite lookup_insert_ne by done. exact Hstart.
Qed.

Lemma omit_other (l : list string) (h : Header) (c : string) :
  ~ In c (map CanonicalMIMEHeaderKey l) ->
  foldl (fun h k => Del_ k h) h l !! c = h !! c.
Proof.
  revert h. induction l as [|a l IH]; intros h Hc; simpl; [reflexivity|].
  rewrite IH by (intros Hin; apply Hc; right; exact Hin).
  unfold Del_, Header_Del. apply lookup_delete_ne. intros Heq. apply Hc. left. exact Heq.
Qed.

Lemma prepare_contentType method url options body ct :
  prepare method url options = inr (body, ct) ->
  ct = match JSONBody options with Some _ => Some applicationJSON | None => None end.
Proof.
  unfold prepare. destruct (JSONBody options) as [v|].
  - destruct (RawBody options); [discriminate|].
    destruct (json_Marshal v); [discriminate|].
    destruct (_ && _); [discriminate|].
    destruct (NewRequest_error method url); [discriminate|]. intros [= <- <-]. reflexivity.
  - destruct (_ && _); [discriminate|].
    destruct (NewRequest_error method url); [discriminate|]. intros [= <- <-]. reflexivity.
Qed.

(** X17.  Headers the caller overrides.  For every header other than the
    authentication header and those listed in [OmitHeaders], the request
    carries the value of the last [MoreHeaders] entry with that canonical
    name when there is one, and otherwise the default: [Accept] and
    [User-Agent] always, [Content-Type] only for a JSON body. *)
Theorem MoreHeaders_override_defaults client method url options m tok res m1 :
  exchange client method url options m = Exchanged tok res m1 ->
  exists req,
    log m1 = EvDo req :: log m
    /\ forall c,
        ~ In c (map CanonicalMIMEHeaderKey (OmitHeaders options)) ->
        c <> CanonicalMIMEHeaderKey "X-Auth-Token" ->
        ReqHeader req !! c
        = match overriding c (MoreHeaders options) None with
          | Some v => Some [v]
          | None =>
              default_headers client
                (match JSONBody options with
                 | Some _ => Some applicationJSON
                 | None => None
                 end) !! c
          end.
Proof.
  unfold exchange.
  destruct (prepare method url options) as [e|[body ct]] eqn:Hp; [discriminate|].
  apply prepare_contentType in Hp. subst ct.
  destruct (AuthenticatedHeaders client m) as [auth m0|m0] eqn:Ha; [|discriminate].
  destruct (AuthenticatedHeaders_Got _ _ _ _ Ha) as [-> Hauth].
  unfold transmit.
  destruct (HTTPClient_Do client _ _) as [[env' consumed] r'].
  intros [= <- <- <-]. eexists. split; [destruct body; reflexivity|].
  intros c Homit Hauthkey. simpl. unfold request_header.
  assert (forall h : Header, apply_auth auth h !! c = h !! c) as Hskip.
  { intros h. rewrite Hauth. destruct (_ || _); simpl; [reflexivity|].
    unfold Set_, Header_Set. apply lookup_insert_ne. congruence. }
  rewrite Hskip. unfold apply_OmitHeaders. rewrite omit_other by exact Homit.
  unfold apply_MoreHeaders. apply overriding_lookup. right. reflexivity.
Qed.

End Facts.
End ExecutorMore.

(** ** More on the coordinator *)

Module CoordinatorMore.
Import Coordinator CoordinatorFacts.

Lemma init_Anchored st : Anchored (init st).
Proof. constructor; simpl; [discriminate|]. intros t g []. Qed.

Lemma set_store_Anchored st s : Anchored s -> Anchored (set_store st s).
Proof. intros [Am Aw]. constructor; simpl; auto. Qed.

Lemma record_Anchored f s : Anchored s -> Anchored (record f s).
Proof. intros [Am Aw]. constructor; simpl; auto. Qed.

Lemma cancel_Anchored t s : Anchored s -> Anchored (cancel t s).
Proof.
  intros [Am Aw]. constructor; simpl.
  - intros f Hf. destruct (Am f Hf) as [t0 Ht0]. exists t0.
    unfold insert, fn_insert. case_decide; simplify_eq/=; done.
  - intros t0 g. unfold insert at 1, fn_insert. case_decide; simplify_eq/=; apply Aw.
Qed.

(** A goroutine that holds no attempt moves to a place where it holds
    none. *)
Lemma move_Anchored t p s :
  (forall f, ~ in_flight (at_ (goroutines s t)) f) ->
  (forall f, ~ in_flight p f) ->
  (forall g, waits_on p g ->
             exists fut, futures s !! g = Some fut /\ (done fut = true \/ ongoing s = Some g)) ->
  Anchored s -> Anchored (move t p s).
Proof.
  intros Hnot Hp Hw [Am Aw]. constructor; simpl.
  - intros f Hf. destruct (Am f Hf) as [t0 Ht0]. exists t0.
    unfold insert, fn_insert. case_decide; simplify_eq/=; [|done].
    exfalso. eapply Hnot, Ht0.
  - intros t0 g. unfold insert at 1, fn_insert. case_decide; simplify_eq/=; [apply Hw|apply Aw].
Qed.

(** The goroutine that holds the attempt moves on with it. *)
Lemma advance_Anchored t p s f :
  ongoing s = Some f ->
  in_flight p f ->
  Anchored s -> Anchored (move t p s).
Proof.
  intros Hon Hp [Am Aw]. constructor; simpl.
  - intros f' Hf'. exists t. rewrite fn_lookup_insert. simpl. congruence.
  - intros t0 g. unfold insert at 1, fn_insert. case_decide; simplify_eq/=; [|apply Aw].
    intros Hw. destruct p; simpl in *; done.
Qed.

Lemma resting_not_in_flight p f : resting p = true -> ~ in_flight p f.
Proof. destruct p; simpl; intros Hr Hf; done. Qed.

Ltac not_held Hat :=
  let f := fresh "f" in let Hf := fresh "Hf" in
  intros f Hf; simpl in Hf; rewrite Hat in Hf; simpl in Hf; done.

Ltac no_hold :=
  let f := fresh "f" in let Hf := fresh "Hf" in
  intros f Hf; simpl in Hf; done.

Ltac no_wait :=
  let g := fresh "g" in let Hg := fresh "Hg" in
  intros g Hg; simpl in Hg; done.

Lemma step_Anchored cfg a s s' :
  Inv s -> Anchored s -> step cfg a s = Some s' -> Anchored s'.
Proof.
  intros I A Hstep. destruct a as [t prev|t|t|t st e|t|t|t|t|t|t]; simpl in Hstep.
  - (* CallReauthenticate *)
    destruct (resting (at_ (goroutines s t))) eqn:Hrest; [|done].
    assert (forall f, ~ in_flight (at_ (goroutines s t)) f) as Hnot
        by (intros f; apply resting_not_in_flight, Hrest).
    destruct A as [Am Aw].
    destruct (negb (has_ReauthFunc cfg)); [|destruct (negb (has_reauthmut cfg))];
      simplify_eq/=; (constructor; simpl;
      [ intros f Hf; destruct (Am f Hf) as [t0 Ht0]; exists t0;
        unfold insert, fn_insert; case_decide; simplify_eq/=; [|done];
        exfalso; eapply Hnot, Ht0
      | intros t0 g; unfold insert at 1, fn_insert; case_decide; simplify_eq/=; [done|];
        intros Hw; destruct (Aw _ _ Hw) as (fut & Hfut & Hd);
        exists fut; split; [first [exact Hfut|apply lookup_app_l_Some; exact Hfut]|exact Hd] ]).
  - (* Lock *)
    destruct (at_ (goroutines s t)) as [|prev f| | | | | | | | | |] eqn:Hat; try done.
    destruct (ongoing s) as [running|] eqn:Hon; simplify_eq/=.
    + apply move_Anchored; [not_held Hat|no_hold| |exact A].
      intros g Hg. simpl in Hg. subst g.
      destruct (inv_open s I _ Hon) as (fut & Hfut & _). eauto.
    + destruct A as [Am Aw]. constructor; simpl.
      * intros f' [= <-]. exists t. rewrite fn_lookup_insert. done.
      * intros t0 g. unfold insert at 1, fn_insert. case_decide; simplify_eq/=; [done|].
        intros Hw. destruct (Aw _ _ Hw) as (fut & Hfut & [Hd|Hd]); [eauto|congruence].
  - (* Decide *)
    destruct (at_ (goroutines s t)) as [| |prev f| | | | | | | | |] eqn:Hat; try done.
    assert (in_flight (at_ (goroutines s t)) f) as Hfl by (rewrite Hat; done).
    pose proof (inv_marker s I _ _ Hfl) as Hon.
    destruct (_ || _); simplify_eq/=.
    + apply (advance_Anchored t (Running f) (record f s) f); [exact Hon|done|].
      apply record_Anchored, A.
    + apply (advance_Anchored t (Finishing f None) s f); [exact Hon|done|exact A].
  - (* ReauthFuncReturns *)
    destruct (at_ (goroutines s t)) as [| | |f| | | | | | | |] eqn:Hat; try done; simplify_eq/=.
    + assert (in_flight (at_ (goroutines s t)) f) as Hfl by (rewrite Hat; done).
      pose proof (inv_marker s I _ _ Hfl) as Hon.
      apply (advance_Anchored t (Finishing f e) (set_store st s) f); [exact Hon|done|].
      apply set_store_Anchored, A.
    + apply move_Anchored; [not_held Hat|no_hold|no_wait|].
      apply set_store_Anchored, A.
  - (* Publish *)
    destruct (at_ (goroutines s t)) as [| | | |f e| | | | | | |] eqn:Hat; try done.
    assert (in_flight (at_ (goroutines s t)) f) as Hfl by (rewrite Hat; done).
    destruct (in_flight_facts _ _ _ I Hfl) as (Hon & Hlt & Hopen & _).
    rewrite Hon in Hstep. destruct Hopen as (fut & Hfut & Hopen).
    rewrite Hfut in Hstep. unfold reauthFuture_Set in Hstep. rewrite Hopen in Hstep.
    simplify_eq/=. destruct A as [Am Aw]. constructor; simpl; [discriminate|].
    intros t0 g. unfold insert at 1, fn_insert. case_decide; simplify_eq/=; [done|].
    intros Hw. destruct (Aw _ _ Hw) as (fut0 & Hfut0 & Hd).
    destruct (decide (f = g)) as [<-|Hne].
    + eexists. split; [apply list_lookup_insert_eq; done|]. left. reflexivity.
    + exists fut0. split; [rewrite list_lookup_insert_ne; done|].
      destruct Hd as [Hd|Hd]; [left; exact Hd|congruence].
  - (* Receive *)
    destruct (at_ (goroutines s t)) as [| | | | |g| | | |g| |] eqn:Hat; try done;
      (destruct (futures s !! g) as [fut|] eqn:Hfut; [|done]);
      (destruct (reauthFuture_Get fut); [|done]); simplify_eq/=;
      (apply move_Anchored; [not_held Hat|no_hold|no_wait|exact A]).
  - (* CallAuthenticatedHeaders *)
    destruct (resting (at_ (goroutines s t))) eqn:Hrest; [|done].
    assert (forall f, ~ in_flight (at_ (goroutines s t)) f) as Hnot
        by (intros f; apply resting_not_in_flight, Hrest).
    destruct (is_throwaway cfg); [|destruct (has_reauthmut cfg)];
      simplify_eq/=; (apply move_Anchored; [exact Hnot|no_hold|no_wait|exact A]).
  - (* Observe *)
    destruct (at_ (goroutines s t)) eqn:Hat; try done.
    destruct (ongoing s) as [running|] eqn:Hon; simplify_eq/=.
    + apply move_Anchored; [not_held Hat|no_hold| |exact A].
      intros g Hg. simpl in Hg. subst g.
      destruct (inv_open s I _ Hon) as (fut & Hfut & _). eauto.
    + apply move_Anchored; [not_held Hat|no_hold|no_wait|exact A].
  - (* ReadToken *)
    destruct (at_ (goroutines s t)) eqn:Hat; try done.
    simplify_eq/=. apply move_Anchored; [not_held Hat|no_hold|no_wait|exact A].
  - simplify_eq. apply cancel_Anchored, A.
Qed.

Lemma run_Anchored cfg acts s s' :
  Inv s -> Anchored s -> run cfg acts s = Some s' -> Anchored s'.
Proof.
  revert s. induction acts as [|a acts IH]; intros s I A Hrun; simpl in Hrun.
  - congruence.
  - destruct (step cfg a s) as [s1|] eqn:Hstep; [|done].
    eauto using step_Inv, step_Anchored.
Qed.

Lemma reachable_Anchored cfg st acts s : run cfg acts (init st) = Some s -> Anchored s.
Proof. apply run_Anchored; [apply init_Inv|apply init_Anchored]. Qed.

(** X18.  The marker and its holder.  In every reachable state the marker is
    set exactly when some goroutine holds the attempt made under the marked
    future: a goroutine never returns leaving the marker set, and never
    holds an attempt the marker does not name. *)
Theorem marker_names_the_holder cfg st acts s :
  run cfg acts (init st) = Some s ->
  (forall f, ongoing s = Some f <-> exists t, in_flight (at_ (goroutines s t)) f)
  /\ (ongoing s = None <-> forall t f, ~ in_flight (at_ (goroutines s t)) f).
Proof.
  intros Hrun. pose proof (reachable_Inv _ _ _ _ Hrun) as I.
  pose proof (reachable_Anchored _ _ _ _ Hrun) as A.
  assert (forall f, ongoing s = Some f <-> exists t, in_flight (at_ (goroutines s t)) f) as Hiff.
  { intros f. split; [apply (anchored_marker s A)|].
    intros [t Ht]. apply (inv_marker s I _ _ Ht). }
  split; [exact Hiff|]. split.
  - intros Hnone t f Hfl. apply (inv_marker s I) in Hfl. congruence.
  - intros Hno. destruct (ongoing s) as [f|] eqn:Hon; [|reflexivity].
    apply (anchored_marker s A) in Hon as [t Ht]. exfalso. eapply Hno, Ht.
Qed.

(** X19.  No waiter is stranded.  In every reachable state a goroutine that
    waits on a future either can receive from it at once, or waits on the
    future the marker names, whose attempt some goroutine still holds. *)
Theorem waiter_is_never_stranded cfg st acts s t g :
  run cfg acts (init st) = Some s ->
  waits_on (at_ (goroutines s t)) g ->
  exists fut,
    futures s !! g = Some fut
    /\ ((done fut = true /\ exists s', step cfg (Receive t) s = Some s')
        \/ (done fut = false /\ ongoing s = Some g
            /\ exists t', in_flight (at_ (goroutines s t')) g)).
Proof.
  intros Hrun Hw. pose proof (reachable_Anchored _ _ _ _ Hrun) as A.
  destruct (anchored_waiter s A _ _ Hw) as (fut & Hfut & Hd).
  exists fut. split; [exact Hfut|].
  destruct (done fut) eqn:Hdone.
  - left. split; [reflexivity|].
    destruct (at_ (goroutines s t)) eqn:Hat; simpl in Hw; try done; subst; simpl;
      rewrite Hat, Hfut; unfold reauthFuture_Get; rewrite Hdone; eauto.
  - right. destruct Hd as [Hd|Hd]; [discriminate|].
    split; [reflexivity|]. split; [exact Hd|]. apply (anchored_marker s A), Hd.
Qed.

(** X20.  Publishing never panics.  In every reachable state the goroutine
    that finished its attempt can publish: the marker is set, it names a
    future that is still open, and publishing closes that future with the
    goroutine's error and clears the marker. *)
Theorem publish_never_panics cfg st acts s t f e :
  run cfg acts (init st) = Some s ->
  at_ (goroutines s t) = Finishing f e ->
  exists s',
    step cfg (Publish t) s = Some s'
    /\ ongoing s' = None
    /\ futures s' !! f = Some {| done := true; err := e |}
    /\ at_ (goroutines s' t) = Returned (Some f) e
    /\ store s' = store s.
Proof.
  intros Hrun Hat. pose proof (reachable_Inv _ _ _ _ Hrun) as I.
  assert (in_flight (at_ (goroutines s t)) f) as Hfl by (rewrite Hat; done).
  destruct (in_flight_facts _ _ _ I Hfl) as (Hon & Hlt & (fut & Hfut & Hopen) & _).
  simpl. rewrite Hat, Hon, Hfut. unfold reauthFuture_Set. rewrite Hopen.
  eexists. split; [reflexivity|]. simpl. rewrite fn_lookup_insert. simpl.
  split; [done|]. split; [apply list_lookup_insert_eq; done|]. split; done.
Qed.

(** X21.  A published result is final.  Once a future is closed, no step of
    any goroutine changes it: whoever receives from it later gets the same
    error. *)
Theorem published_result_is_final cfg st acts more s s' f fut :
  run cfg acts (init st) = Some s ->
  run cfg more s = Some s' ->
  futures s !! f = Some fut ->
  done fut = true ->
  futures s' !! f = Some fut.
Proof.
  intros Hrun. pose proof (reachable_Inv _ _ _ _ Hrun) as I. clear Hrun.
  revert s I. induction more as [|a more IH]; intros s I Hmore Hfut Hd; simpl in Hmore.
  - congruence.
  - destruct (step cfg a s) as [s1|] eqn:Hstep; [|done].
    apply (IH s1); [eapply step_Inv; eauto|exact Hmore| |exact Hd].
    clear IH Hmore.
    destruct a as [t prev|t|t|t st0 e|t|t|t|t|t|t]; simpl in Hstep;
      repeat case_match; simplify_eq/=; try exact Hfut.
    + apply lookup_app_l_Some. exact Hfut.
    + match goal with
      | Hon : ongoing s = Some ?g |- _ =>
          destruct (inv_open s I _ Hon) as (fut0 & Hfut0 & Hopen);
          rewrite list_lookup_insert_ne; [exact Hfut|congruence]
      end.
Qed.

End CoordinatorMore.

(** ** The further properties at work *)

Module ScenarioMore.
Import Executor Scenario ExecutorFacts ExecutorMore CoordinatorFacts CoordinatorMore ScenarioFacts.
#[local] Existing Instance scripted.

Lemma continues_eta cfg acts s :
  continues cfg acts s = true -> Coordinator.run cfg acts s = Some (continued cfg acts s).
Proof.
  unfold continues, continued. destruct (Coordinator.run cfg acts s); [done|discriminate].
Qed.

Lemma writers_keep_store_consistent_witness :
  consistent (fst (SetTokenAndAuthResult (Some bad_result) (SetToken "tok" stale_store)))
  /\ consistent (CopyTokenFrom (fst (SetTokenAndAuthResult (Some good_result) stale_store))
                   stale_store)
  /\ GetAuthResult (fst (SetTokenAndAuthResult (Some good_result) stale_store))
     = Some good_result.
Proof.
  pose proof (writers_keep_store_consistent stale_store stale_store "tok" (Some bad_result))
    as (Hset & _).
  pose proof (writers_keep_store_consistent (SetToken "tok" stale_store) stale_store "tok"
                (Some bad_result)) as (_ & Hbad & _).
  pose proof (writers_keep_store_consistent stale_store stale_store "tok" (Some good_result))
    as (_ & _ & _ & Hgood).
  pose proof (writers_keep_store_consistent stale_store
                (fst (SetTokenAndAuthResult (Some good_result) stale_store)) "tok" None)
    as (_ & _ & Hcopy & _).
  split; [exact (Hbad Hset)|]. split; [exact (Hcopy (proj1 (Hgood eq_refl)))|].
  exact (proj2 (Hgood eq_refl)).
Defined.

Lemma both_bodies_refused_witness :
  doRequest 1 bare_client "POST" url both_bodies (boot [] "tok")
  = Returned (None,
              Some (errorString
                      "please provide only one of JSONBody or RawBody to gophercloud.Request()"))
      (boot [] "tok").
Proof. exact (both_bodies_refused 0 bare_client "POST" url both_bodies (boot [] "tok") "{}" seekable eq_refl eq_refl). Defined.

Lemma KeepResponseBody_with_JSONResponse_refused_witness :
  exists e,
    doRequest 1 bare_client "GET" url keep_and_decode (boot [] "tok")
    = Returned (None, Some e) (boot [] "tok")
    /\ (JSONBody keep_and_decode = None ->
        e = errorString "cannot use KeepResponseBody when JSONResponse is not nil").
Proof.
  exact (KeepResponseBody_with_JSONResponse_refused 0 bare_client "GET" url keep_and_decode
           (boot [] "tok") eq_refl eq_refl).
Defined.

Lemma without_hooks_one_attempt_witness :
  let m := boot [inr (reply 401 "expired"); inr (reply 200 "")] "stale" in
  doRequest 5 bare_client "GET" url plain m = doRequest 1 bare_client "GET" url plain m
  /\ sends (final (doRequest 1 bare_client "GET" url plain m)) <= S (sends m).
Proof.
  intros m.
  destruct (without_hooks_one_attempt 4 bare_client "GET" url plain m eq_refl eq_refl eq_refl)
    as (Hsame & _ & Hsends).
  split; [exact Hsame|exact Hsends].
Defined.

Lemma unexpected_status_reported_witness :
  let m := boot [inr (reply 503 "busy")] "tok" in
  let x := exchange bare_client "GET" url plain m in
  doRequest 1 bare_client "GET" url plain m
  = Returned (Some (reply 503 "busy"),
              Some (UnexpectedResponseCode (respErr_of "GET" url plain (reply 503 "busy"))))
      (exchanged_mem m x).
Proof.
  intros m x.
  apply (unexpected_status_reported 0 bare_client "GET" url plain m (exchanged_token x)
           (reply 503 "busy") (exchanged_mem m x)).
  - apply exchanged_eta. vm_compute; reflexivity.
  - vm_compute; reflexivity.
  - reflexivity.
  - left. discriminate.
  - left. reflexivity.
Defined.

Lemma failed_reauthentication_reports_both_witness :
  let m := boot [inr (reply 401 "expired"); inr (reply 200 "")] "stale" in
  let x := exchange refusing_client "GET" url plain m in
  let m2 := blocking_mem (Reauthenticate refusing_client (exchanged_token x) (exchanged_mem m x)) in
  let original := UnexpectedResponseCode (respErr_of "GET" url plain (reply 401 "expired")) in
  let e := ForeignError "bad credentials" in
  doRequest 3 refusing_client "GET" url plain m
  = Returned (None, Some (ErrUnableToReauthenticate original e)) m2
  /\ In original (causes (ErrUnableToReauthenticate original e))
  /\ In e (causes (ErrUnableToReauthenticate original e))
  /\ sends m2 = sends (exchanged_mem m x).
Proof.
  intros m x m2 original e.
  apply (failed_reauthentication_reports_both 2 refusing_client "GET" url plain m
           (exchanged_token x) (reply 401 "expired") (exchanged_mem m x) e m2).
  - apply exchanged_eta. vm_compute; reflexivity.
  - reflexivity.
  - vm_compute; reflexivity.
  - discriminate.
  - reflexivity.
  - subst m2. apply blocking_eta. vm_compute; reflexivity.
Defined.

Lemma never_blocks_alone_witness :
  ongoing (final (doRequest 9 retrying_client "GET" url plain
                    (boot [inr (reply 401 "expired"); inr (reply 500 "oops");
                           inr (reply 200 "")] "stale"))) = None.
Proof.
  exact (proj2 (never_blocks_alone 9 retrying_client "GET" url plain
                  (boot [inr (reply 401 "expired"); inr (reply 500 "oops");
                         inr (reply 200 "")] "stale") eq_refl)).
Defined.

Lemma request_carries_current_token_witness :
  let m := boot [inr (reply 200 "")] "tok" in
  let x := exchange plain_client "GET" url forging m in
  exchanged_token x = Token (store (world m))
  /\ exists req,
      log (exchanged_mem m x) = EvDo req :: log m
      /\ ReqHeader req !! CanonicalMIMEHeaderKey "X-Auth-Token" = Some [Token (store (world m))].
Proof.
  intros m x.
  apply (request_carries_current_token plain_client "GET" url forging m
           (exchanged_token x) (inr (reply 200 "")) (exchanged_mem m x)).
  - reflexivity.
  - discriminate.
  - apply exchanged_eta. vm_compute; reflexivity.
Defined.

Lemma throwaway_neither_waits_nor_sends_token_witness :
  let m := contended [inr (reply 200 "")] "tok" in
  let x := exchange throwaway_client "GET" url plain m in
  exists req contentType,
    log (exchanged_mem m x) = EvDo req :: log m
    /\ ReqHeader req
       = apply_OmitHeaders plain
           (apply_MoreHeaders plain (default_headers throwaway_client contentType)).
Proof.
  intros m x.
  apply (proj2 (throwaway_neither_waits_nor_sends_token throwaway_client "GET" url plain m
                  eq_refl) (exchanged_token x) (inr (reply 200 "")) (exchanged_mem m x)).
  apply exchanged_eta. vm_compute; reflexivity.
Defined.

Lemma no_content_is_not_decoded_witness :
  let m := boot [inr no_content] "tok" in
  let x := exchange retrying_client "DELETE" url decoding m in
  doRequest 1 retrying_client "DELETE" url decoding m
  = Returned (Some no_content, ReadError no_content) (exchanged_mem m x).
Proof.
  intros m x.
  apply (no_content_is_not_decoded 0 retrying_client "DELETE" url decoding m
           (exchanged_token x) no_content (exchanged_mem m x)).
  - apply exchanged_eta. vm_compute; reflexivity.
  - vm_compute; reflexivity.
  - reflexivity.
  - reflexivity.
Defined.

Lemma accepted_status_needs_no_hook_witness :
  let m := boot [inr (reply 401 "expired")] "stale" in
  let x := exchange plain_client "GET" url (accepting [401%Z]) m in
  doRequest 1 plain_client "GET" url (accepting [401%Z]) m
  = Returned (Some (reply 401 "expired"), None) (exchanged_mem m x)
  /\ exists req, log (exchanged_mem m x) = EvDo req :: log m.
Proof.
  intros m x.
  apply (accepted_status_needs_no_hook 0 plain_client "GET" url (accepting [401%Z]) m
           (exchanged_token x) (reply 401 "expired") (exchanged_mem m x)).
  - apply exchanged_eta. vm_compute; reflexivity.
  - vm_compute; reflexivity.
  - reflexivity.
Defined.

Lemma default_codes_accept_success_only_witness :
  In "PATCH" ["GET"; "HEAD"; "POST"; "PUT"; "PATCH"; "DELETE"]
  /\ In (StatusCode no_content) [200%Z; 201%Z; 202%Z; 204%Z]
  /\ rate_limited no_content = false /\ StatusCode no_content <> 401%Z.
Proof.
  apply (default_codes_accept_success_only "PATCH" plain no_content); reflexivity.
Defined.

Lemma marker_names_the_holder_witness :
  let s := reached locked canceled_waiters stale_store in
  Coordinator.ongoing s = Some 0
  <-> exists t, Coordinator.in_flight (Coordinator.at_ (Coordinator.goroutines s t)) 0.
Proof.
  intros s.
  assert (Coordinator.run locked canceled_waiters (Coordinator.init stale_store) = Some s)
    as Hrun by (apply runs_eta; vm_compute; reflexivity).
  apply (proj1 (marker_names_the_holder locked stale_store canceled_waiters s Hrun)).
Defined.

Lemma waiter_is_never_stranded_witness :
  let s := reached locked canceled_waiters stale_store in
  exists fut,
    Coordinator.futures s !! 0 = Some fut
    /\ ((done fut = true /\ exists s', Coordinator.step locked (Coordinator.Receive 1) s = Some s')
        \/ (done fut = false /\ Coordinator.ongoing s = Some 0
            /\ exists t', Coordinator.in_flight
                            (Coordinator.at_ (Coordinator.goroutines s t')) 0)).
Proof.
  intros s.
  apply (waiter_is_never_stranded locked stale_store canceled_waiters s 1 0).
  - apply runs_eta. vm_compute; reflexivity.
  - vm_compute; reflexivity.
Defined.

Lemma publish_never_panics_witness :
  let s := reached locked about_to_publish stale_store in
  exists s',
    Coordinator.step locked (Coordinator.Publish 0) s = Some s'
    /\ Coordinator.ongoing s' = None
    /\ Coordinator.futures s' !! 0
       = Some {| done := true; err := Some (ForeignError "bad credentials") |}
    /\ Coordinator.at_ (Coordinator.goroutines s' 0)
       = Coordinator.Returned (Some 0) (Some (ForeignError "bad credentials"))
    /\ Coordinator.store s' = Coordinator.store s.
Proof.
  intros s.
  apply (publish_never_panics locked stale_store about_to_publish s 0 0
           (Some (ForeignError "bad credentials"))).
  - apply runs_eta. vm_compute; reflexivity.
  - vm_compute; reflexivity.
Defined.

Lemma published_result_is_final_witness :
  let s := reached locked storm_published stale_store in
  Coordinator.futures (continued locked storm_rest s) !! 1 = Some {| done := true; err := None |}.
Proof.
  intros s.
  apply (published_result_is_final locked stale_store storm_published storm_rest s
           (continued locked storm_rest s) 1 {| done := true; err := None |}).
  - apply runs_eta. vm_compute; reflexivity.
  - apply continues_eta. vm_compute; reflexivity.
  - vm_compute; reflexivity.
  - reflexivity.
Defined.

Lemma transport_error_goes_to_RetryFunc_witness :
  let m := boot [inl (ForeignError "connection reset")] "tok" in
  let x := exchange bare_client "GET" url plain m in
  doRequest 1 bare_client "GET" url plain m
  = Returned (None, Some (ForeignError "connection reset")) (exchanged_mem m x).
Proof.
  intros m x.
  assert (x = Exchanged (exchanged_token x) (inl (ForeignError "connection reset"))
                (exchanged_mem m x)) as Hx.
  { assert (exchanged_reply x = inl (ForeignError "connection reset")) as Hr
        by (vm_compute; reflexivity).
    clearbody x. destruct x; simpl in *; try discriminate; rewrite Hr; reflexivity. }
  exact (transport_error_goes_to_RetryFunc 0 bare_client "GET" url plain m
           (exchanged_token x) (ForeignError "connection reset") (exchanged_mem m x) Hx).
Defined.

Lemma MoreHeaders_override_defaults_witness :
  let m := boot [inr (reply 200 "")] "tok" in
  let x := exchange plain_client "GET" url forging m in
  exists req,
    log (exchanged_mem m x) = EvDo req :: log m
    /\ forall c,
        ~ In c (map CanonicalMIMEHeaderKey (OmitHeaders forging)) ->
        c <> CanonicalMIMEHeaderKey "X-Auth-Token" ->
        ReqHeader req !! c
        = match overriding c (MoreHeaders forging) None with
          | Some v => Some [v]
          | None =>
              default_headers plain_client
                (match JSONBody forging with
                 | Some _ => Some applicationJSON
                 | None => None
                 end) !! c
          end.
Proof.
  intros m x.
  apply (MoreHeaders_override_defaults plain_client "GET" url forging m
           (exchanged_token x) (inr (reply 200 "")) (exchanged_mem m x)).
  apply exchanged_eta. vm_compute; reflexivity.
Defined.

End ScenarioMore.
